(** * Tabular preparation of the earthquake-damage notebook

    A shallow embedding of the data-preparation cell of the Random Forest
    notebook (reading the two tables, dropping [building_id], remapping the
    categorical columns to integer codes) and of the train/test split that
    follows it, with the properties of the specification stated over it. *)

From Stdlib Require Import ZArith QArith Qround Lqa.
From stdpp Require Import gmap strings list fin_maps.

Local Open Scope Z_scope.
Local Open Scope string_scope.
Local Open Scope nat_scope.

(** ** Exceptions *)

(** The only exception the preparation cell can raise on a parsed table is
    pandas' [KeyError], for a column label that the frame does not have. *)
Inductive exn : Type :=
  | KeyError (label : string).

(** The outcome of a computation that can raise an exception of type [E]. *)
Inductive result (E A : Type) : Type :=
  | Ok (a : A)
  | Raise (e : E).
Arguments Ok {E A} a.
Arguments Raise {E A} e.

Definition raises {E A} (r : result E A) : Prop := ∃ e, r = Raise e.

(** ** Data model *)

(** A cell of a table: a categorical string before encoding, or a number. *)
Inductive cell : Type :=
  | Str (s : string)
  | Num (z : Z).

#[global] Instance cell_eq_dec : EqDecision cell.
Proof. solve_decision. Defined.

(** A pandas [Series] is a column of cells; a [DataFrame] is an ordered
    sequence of labelled columns.  [read_csv] makes the labels distinct. *)
Abbreviation Series := (list cell).
Abbreviation DataFrame := (list (string * list cell)).

(** [df.columns] *)
Definition columns (df : DataFrame) : list string := df.*1.

(** [df[key]]: the column labelled [key], or [KeyError]. *)
Fixpoint getitem (df : DataFrame) (key : string) : result exn Series :=
  match df with
  | [] => Raise (KeyError key)
  | (k, col) :: df' => if decide (k = key) then Ok col else getitem df' key
  end.

(** [pd.read_csv(file, header=0, delimiter=",", nrows=N)] on a parsed table:
    at most [nrows] data rows of every column are read. *)
Definition read_csv (file : DataFrame) (nrows : nat) : DataFrame :=
  prod_map id (take nrows) <$> file.

(** [df.drop(label, axis=1, inplace=True)]: removes the column, and raises
    [KeyError] when no column has that label.  The exception is kept with
    the label it is about; the text of the message that pandas makes from
    the label is not modelled. *)
Definition DataFrame_drop (label : string) (df : DataFrame)
  : result exn DataFrame :=
  if decide (label ∈ columns df)
  then Ok (filter (λ c, c.1 ≠ label) df)
  else Raise (KeyError label).

(** [np.arange(n)] *)
Definition arange (n : nat) : list Z := Z.of_nat <$> seq 0 n.

(** [dict(pairs)]: later pairs overwrite earlier ones with the same key. *)
Definition put (m : gmap string Z) (kv : string * Z) : gmap string Z :=
  <[kv.1 := kv.2]> m.

Definition dict (pairs : list (string * Z)) : gmap string Z :=
  foldl put ∅ pairs.

(** The replacement dictionary of one vocabulary:
    [dict(zip(val, np.arange(len(val))))]. *)
Definition val_dict (val : list string) : gmap string Z :=
  let replacements := arange (length val) in
  dict (zip val replacements).

(** [Series.replace(to_replace=d)] on one cell: a cell equal to a key of [d]
    becomes the value stored under it, any other cell is left as it is.  The
    keys are strings, so a number never matches. *)
Definition replace_cell (d : gmap string Z) (c : cell) : cell :=
  match c with
  | Str s => match d !! s with
             | Some i => Num i
             | None => Str s
             end
  | Num z => Num z
  end.

Definition replace (to_replace : gmap string Z) (col : Series) : Series :=
  replace_cell to_replace <$> col.

(** The effect on the frame of an in-place operation [f] on [df[key]]:
    [df[key]] is the frame's own column, so [inplace=True] on it changes the
    frame. *)
Definition inplace (key : string) (f : Series → Series) (df : DataFrame)
  : DataFrame :=
  (λ c, if decide (c.1 = key) then (c.1, f c.2) else c) <$> df.

(** Decoding: the string at position [code] of the vocabulary. *)
Definition decode (val : list string) (c : cell) : option string :=
  match c with
  | Num z => if decide (0 ≤ z)%Z then val !! Z.to_nat z else None
  | Str _ => None
  end.

(** ** The notebook's globals and its data-preparation cell *)

(** [value_map]: the map to convert non-numeric values, in the order of its
    items. *)
Definition value_map : list (string * list string) :=
  [ ("land_surface_condition", ["n"; "o"; "t"]);
    ("foundation_type", ["h"; "i"; "r"; "u"; "w"]);
    ("roof_type", ["n"; "q"; "x"]);
    ("ground_floor_type", ["f"; "m"; "v"; "x"; "z"]);
    ("other_floor_type", ["j"; "q"; "s"; "x"]);
    ("position", ["j"; "o"; "s"; "t"]);
    ("plan_configuration", ["a"; "c"; "d"; "f"; "m"; "n"; "o"; "q"; "s"; "u"]);
    ("legal_ownership_status", ["a"; "r"; "v"; "w"]) ].

(** [N = int(5e4)] *)
Definition N : nat := 50000.

(** The module-level variables the cell reads and writes. *)
Record globals : Type := Globals {
  g_value_map : list (string * list string);
  values : DataFrame;
  labels : DataFrame
}.

Definition set_values (vals : DataFrame) (g : globals) : globals :=
  Globals (g_value_map g) vals (labels g).
Definition set_labels (labs : DataFrame) (g : globals) : globals :=
  Globals (g_value_map g) (values g) labs.

(** Statements of the cell run on the globals and either complete or raise;
    what was assigned or changed in place before an exception stays so. *)
Definition cell_run (A : Type) : Type := globals → result exn A * globals.

#[global] Instance cell_run_ret : MRet cell_run := λ A a g, (Ok a, g).
#[global] Instance cell_run_bind : MBind cell_run := λ A B f m g,
  match m g with
  | (Ok a, g') => f a g'
  | (Raise e, g') => (Raise e, g')
  end.

(** An expression that only reads the globals. *)
Definition eval {A} (e : globals → result exn A) : cell_run A := λ g, (e g, g).
(** A statement that updates them and cannot raise. *)
Definition exec (f : globals → globals) : cell_run () := λ g, (Ok (), f g).

(** One iteration of the remapping loop, for the item [(key, val)]:
    [values[key]] raises when the column is missing, otherwise [replace]
    changes that column of [values] in place. *)
Definition remap_item (item : string * list string) : cell_run () :=
  let '(key, val) := item in
  let to_replace := val_dict val in
  _ ← eval (λ g, getitem (values g) key);
  exec (λ g, set_values (inplace key (replace to_replace) (values g)) g).

(** [for item in items: body(item)] *)
Fixpoint for_each {A} (items : list A) (body : A → cell_run ()) : cell_run () :=
  match items with
  | [] => mret ()
  | item :: items' => _ ← body item; for_each items' body
  end.

(** The loop "Convert non-numeric values": [for key, val in value_map.items()]. *)
Definition remap : cell_run () :=
  λ g, for_each (g_value_map g) remap_item g.

(** [values.drop("building_id", axis=1, inplace=True)] and the same on
    [labels]. *)
Definition drop_values (label : string) : cell_run () := λ g,
  match DataFrame_drop label (values g) with
  | Ok vals => (Ok (), set_values vals g)
  | Raise e => (Raise e, g)
  end.
Definition drop_labels (label : string) : cell_run () := λ g,
  match DataFrame_drop label (labels g) with
  | Ok labs => (Ok (), set_labels labs g)
  | Raise e => (Raise e, g)
  end.

(** The whole preparation cell, from the configured map and the two parsed
    files: read at most [N] rows of each, drop the building ID, remap. *)
Definition prepare (vm : list (string * list string))
  (file_values file_labels : DataFrame) : result exn () * globals :=
  let vals := read_csv file_values N in
  let labs := read_csv file_labels N in
  (_ ← drop_values "building_id";
   _ ← drop_labels "building_id";
   remap) (Globals vm vals labs).

(** The items the loop gets through before [values[key]] raises: the longest
    prefix of the items whose keys all label a column. *)
Fixpoint processed (items : list (string * list string)) (cols : list string)
  : list (string * list string) :=
  match items with
  | [] => []
  | item :: items' =>
      if decide (item.1 ∈ cols) then item :: processed items' cols else []
  end.

(** The first key that labels no column, if there is one. *)
Fixpoint first_missing (items : list (string * list string))
  (cols : list string) : option string :=
  match items with
  | [] => None
  | item :: items' =>
      if decide (item.1 ∈ cols) then first_missing items' cols
      else Some item.1
  end.

(** The cell function that the loop applies to the column labelled [k]: the
    replacements of the items whose key is [k], in the order of the items. *)
Fixpoint encoder (items : list (string * list string)) (k : string) (c : cell)
  : cell :=
  match items with
  | [] => c
  | item :: items' =>
      encoder items' k
        (if decide (k = item.1) then replace_cell (val_dict item.2) c else c)
  end.

(** The frame computed by the loop when no column is missing. *)
Definition encode_frame (items : list (string * list string)) (df : DataFrame)
  : DataFrame :=
  (λ c : string * list cell, (c.1, encoder items c.1 <$> c.2)) <$> df.

(** [len(df)]: the number of rows of a frame. *)
Definition nrows (df : DataFrame) : nat :=
  match df with
  | [] => 0
  | c :: _ => length c.2
  end.

(** The rows of a frame, each a list of cells in the order of the columns. *)
Definition rows (df : DataFrame) : list (list cell) :=
  (λ i, omap (λ c : string * list cell, c.2 !! i) df) <$> seq 0 (nrows df).

(** ** The train/test split *)

(** Modelled from the spec: [train_test_split], which the notebook imports
    from scikit-learn and calls once, as
    [train_test_split(values, labels, test_size=0.2, random_state=0)]; its
    body is not part of the repository.  The definitions of this part follow
    the contract of the SplitPartitioner (section 4.3 of the specification)
    and its data model (section 3): the two errors, the Dataset of aligned
    features and labels, the test size [round(f * |dataset|)], and a
    partition cut out of a pseudo-random permutation of the row indices that
    is seeded by [seed]. *)
Inductive split_error : Type :=
  | InvalidFractionError
  | EmptyDatasetError.

(** Modelled from the spec: the Dataset of section 3, a sequence of feature
    rows aligned by position with a parallel sequence of labels. *)
Record Dataset (X Y : Type) : Type := mkDataset {
  features : list X;
  targets : list Y
}.
Arguments mkDataset {X Y} features targets.
Arguments features {X Y} d.
Arguments targets {X Y} d.

(** Modelled from the spec: [|dataset|], the number of rows. *)
Definition size {X Y} (D : Dataset X Y) : nat := length (features D).

(** Modelled from the spec: the invariant "feature-sequence length equals
    label-sequence length". *)
Definition aligned {X Y} (D : Dataset X Y) : Prop :=
  length (features D) = length (targets D).

(** Modelled from the spec: "round", the nearest integer; a tie goes to the
    even neighbour, as Python's [round] does. *)
Definition round (q : Q) : Z :=
  let lo := Qfloor q in
  match (q - inject_Z lo ?= 1 # 2)%Q with
  | Lt => lo
  | Gt => (lo + 1)%Z
  | Eq => if Z.even lo then lo else (lo + 1)%Z
  end.

(** Modelled from the spec: "f is in (0, 1)". *)
Definition in_unit_interval (f : Q) : bool :=
  if Qlt_le_dec 0 f then (if Qlt_le_dec f 1 then true else false) else false.

(** Modelled from the spec: a subset of a Dataset, given by row indices.
    [take_rows] picks the rows at the positions [idx], in the order of
    [idx]; the features and the labels of a subset are picked by the same
    indices. *)
Definition take_rows {A} (idx : list nat) (l : list A) : list A :=
  omap (λ i, l !! i) idx.

Definition subset {X Y} (D : Dataset X Y) (idx : list nat) : Dataset X Y :=
  mkDataset (take_rows idx (features D)) (take_rows idx (targets D)).

(** Modelled from the spec: the Split of section 3, a pair (train subset,
    test subset), kept together with the row indices assigned to each
    side. *)
Record Split (X Y : Type) : Type := mkSplit {
  ind_train : list nat;
  ind_test : list nat;
  train : Dataset X Y;
  test : Dataset X Y
}.
Arguments mkSplit {X Y} ind_train ind_test train test.
Arguments ind_train {X Y} s.
Arguments ind_test {X Y} s.
Arguments train {X Y} s.
Arguments test {X Y} s.

Section Generator.
(** The pseudo-random generator is a parameter: its states, the state a seed
    gives, and the draw of an arrangement of [0 .. n-1], which advances the
    state. *)
Context {rng : Type}.
Variable seed_rng : Z → rng.
Variable permutation : rng → nat → list nat * rng.

(** Modelled from the spec: "seeded deterministically by seed".  With a seed
    the arrangement comes from a generator made from that seed alone and the
    ambient generator is left as it is.  The seed is optional, as the
    notebook says of [random_state] ("fixed for reproducibility ..., but
    this is not required in general"): without one the ambient generator is
    drawn from, and advanced. *)
Definition draw (seed : option Z) (n : nat) (ambient : rng) : list nat * rng :=
  match seed with
  | Some s => ((permutation (seed_rng s) n).1, ambient)
  | None => permutation ambient n
  end.

(** Modelled from the spec: the SplitPartitioner.  The fraction is checked
    first, then the size; the first [round(f * |D|)] indices of the
    arrangement are the test rows and the others the train rows. *)
Definition SplitPartitioner {X Y} (D : Dataset X Y) (f : Q) (seed : option Z)
  (ambient : rng) : result split_error (Split X Y) * rng :=
  if negb (in_unit_interval f) then (Raise InvalidFractionError, ambient)
  else if decide (size D = 0) then (Raise EmptyDatasetError, ambient)
  else
    let '(perm, ambient') := draw seed (size D) ambient in
    let n_test := Z.to_nat (round (f * inject_Z (Z.of_nat (size D)))) in
    let test_idx := take n_test perm in
    let train_idx := skipn n_test perm in
    (Ok (mkSplit train_idx test_idx (subset D train_idx) (subset D test_idx)),
     ambient').

(** The notebook's call,
    [train_test_split(values, labels, test_size=0.2, random_state=0)], with
    the SplitPartitioner standing for the library function, the rows of the
    two frames as the dataset and the fraction 0.2 as the rational 2/10. *)
Definition train_test_split (g : globals) (ambient : rng)
  : result split_error (Split (list cell) (list cell)) * rng :=
  SplitPartitioner (mkDataset (rows (values g)) (rows (labels g)))
    (2 # 10) (Some 0%Z) ambient.
End Generator.

(** ** Sample inputs *)

(** Two survey records in the layout of [train_values.csv] (the columns the
    map names, the identifier and one numeric column), and their labels. *)
Definition sample_values : DataFrame :=
  [ ("building_id", [Num 802906; Num 28830]);
    ("count_floors_pre_eq", [Num 2; Num 2]);
    ("land_surface_condition", [Str "t"; Str "o"]);
    ("foundation_type", [Str "r"; Str "r"]);
    ("roof_type", [Str "n"; Str "n"]);
    ("ground_floor_type", [Str "f"; Str "x"]);
    ("other_floor_type", [Str "q"; Str "q"]);
    ("position", [Str "t"; Str "s"]);
    ("plan_configuration", [Str "d"; Str "d"]);
    ("legal_ownership_status", [Str "v"; Str "v"]) ]%Z.

Definition sample_labels : DataFrame :=
  [ ("building_id", [Num 802906; Num 28830]);
    ("damage_grade", [Num 3; Num 2]) ]%Z.

(** The same records, the second with a land surface condition ["z"] that
    the vocabulary does not have. *)
Definition unknown_values : DataFrame :=
  <[2 := ("land_surface_condition", [Str "t"; Str "z"])]> sample_values.

(** A feature file of [n] identical records and a label file of [n]. *)
Definition values_file (n : nat) : DataFrame :=
  (λ c : string * list cell, (c.1, replicate n (default (Num 0) (head c.2))))
    <$> sample_values.
Definition labels_file (n : nat) : DataFrame :=
  (λ c : string * list cell, (c.1, replicate n (default (Num 0) (head c.2))))
    <$> sample_labels.

(** A feature file without the column [roof_type]. *)
Definition no_roof_values : DataFrame :=
  filter (λ c, c.1 ≠ "roof_type") sample_values.

(** A small generator for the examples: the state is a counter, a seed is
    taken as the counter, and a draw rotates [0 .. n-1] by the counter. *)
Definition counter_seed (s : Z) : nat := Z.to_nat s.
Definition counter_permutation (g n : nat) : list nat * nat :=
  (rotate g (seq 0 n), S g).

(** A dataset of [n] rows: row [i] has feature [i] and label [i + 1000]. *)
Definition numbered (n : nat) : Dataset nat nat :=
  mkDataset (seq 0 n) (seq 1000 n).

(** ** Array code of the notebooks *)

(** [np.ravel(train_labels)] on a frame: its cells row by row. *)
Definition ravel (df : DataFrame) : list cell := concat (rows df).

(** The exceptions of the array code: an index out of range or a mask of the
    wrong length, and a reshape that does not fit. *)
Inductive numpy_error : Type :=
  | IndexError
  | ValueError.

#[global] Instance result_mbind {E} : MBind (result E) := λ A B f r,
  match r with
  | Ok a => f a
  | Raise e => Raise e
  end.
#[global] Instance result_mret {E} : MRet (result E) := λ A a, Ok a.

(** Arrays are nested lists, outermost axis first. *)

(** [a[n]] along the first axis, for [n] from [range]. *)
Definition item {A} (a : list A) (n : nat) : result numpy_error A :=
  match a !! n with
  | Some x => Ok x
  | None => Raise IndexError
  end.

(** [np.expand_dims(a, 2)] of a two-dimensional array. *)
Definition expand_dims_2 {A} (a : list (list A)) : list (list (list A)) :=
  (λ row : list A, (λ x : A, [x]) <$> row) <$> a.

(** [np.expand_dims(a, 3)] of a three-dimensional array. *)
Definition expand_dims_3 {A} (a : list (list (list A)))
  : list (list (list (list A))) :=
  (λ plane : list (list A),
     (λ row : list A, (λ x : A, [x]) <$> row) <$> plane) <$> a.

(** [a == v], element by element. *)
Definition equals_scalar (a : list Z) (v : Z) : list bool :=
  (λ x, bool_decide (x = v)) <$> a.

(** [~mask] *)
Definition invert (mask : list bool) : list bool := negb <$> mask.

(** The entries of [a] at which the mask is true, in order. *)
Fixpoint compress {A} (mask : list bool) (a : list A) : list A :=
  match mask, a with
  | b :: mask', x :: a' =>
      if b then x :: compress mask' a' else compress mask' a'
  | _, _ => []
  end.

(** [a[mask]] along the first axis: the mask must have the length of [a],
    except that a mask of length zero is accepted on any array and selects
    nothing. *)
Definition boolean_index {A} (a : list A) (mask : list bool)
  : result numpy_error (list A) :=
  if decide (length mask = length a) then Ok (compress mask a)
  else if decide (length mask = 0) then Ok []
  else Raise IndexError.

(** [n] consecutive rows of [m] entries each. *)
Fixpoint chunks {A} (n m : nat) (flat : list A) : list (list A) :=
  match n with
  | 0 => []
  | S n' => take m flat :: chunks n' m (skipn m flat)
  end.

(** [a.reshape((n, -1))], on the entries of [a] in row-major order: the
    number of entries must be a multiple of [n]. *)
Definition reshape_rows {A} (n : nat) (flat : list A)
  : result numpy_error (list (list A)) :=
  if decide (n ≠ 0 ∧ length flat `mod` n = 0)
  then Ok (chunks n (length flat `div` n) flat)
  else Raise ValueError.

(** The selection of example signals in the event-detection notebook, from
    the signals and labels as loaded:
    [train_signals = np.expand_dims(train_signals, 2)], then
    [events = (train_labels == 1)],
    [event_signals = train_signals[events][:5].reshape((5, -1))] and
    [noise_signals = train_signals[~events][:5].reshape((5, -1))]. *)
Definition select_examples {A} (signals : list (list A)) (train_labels : list Z)
  : result numpy_error (list (list A) * list (list A)) :=
  let train_signals := expand_dims_2 signals in
  let events := equals_scalar train_labels 1 in
  selected ← boolean_index train_signals events;
  event_signals ← reshape_rows 5 (concat (concat (take 5 selected)));
  selected ← boolean_index train_signals (invert events);
  noise_signals ← reshape_rows 5 (concat (concat (take 5 selected)));
  mret (event_signals, noise_signals).

(** [for i in range(n): body(i)] on a state that the body updates. *)
Fixpoint for_in {S} (ns : list nat) (body : nat → S → result numpy_error S)
  (s : S) : result numpy_error S :=
  match ns with
  | [] => Ok s
  | n :: ns' => s' ← body n s; for_in ns' body s'
  end.

Definition for_range {S} (n : nat) (body : nat → S → result numpy_error S)
  : S → result numpy_error S :=
  for_in (seq 0 n) body.

(** One panel of the figure of predictions: the position of the subplot,
    the signal plotted and its colour, green when the prediction is the
    label and red otherwise.  [predictions] is the array after
    [np.round(predictions).astype(int)], one integer per signal. *)
Definition panel {A} (predictions test_labels : list Z) (test_signals : list A)
  (n : nat) : result numpy_error (nat * A * string) :=
  prediction ← item predictions n;
  label ← item test_labels n;
  let colour := if decide (prediction = label) then "g" else "r" in
  signal ← item test_signals n;
  mret (1 + n, signal, colour).

(** The loop "Plot 70 examples of events and noise":
    [for i in range(10): for j in range(7): n = 7*i + j; ...]; the state is
    the list of the panels drawn so far. *)
Definition plot_predictions {A} (predictions test_labels : list Z)
  (test_signals : list A) : result numpy_error (list (nat * A * string)) :=
  for_range 10 (λ i,
    for_range 7 (λ j fig,
      let n := 7 * i + j in
      drawn ← panel predictions test_labels test_signals n;
      mret (fig ++ [drawn])%list)) [].

(** An array built entry by entry from indexing that can fail. *)
Fixpoint collect {A B} (f : A → result numpy_error B) (l : list A)
  : result numpy_error (list B) :=
  match l with
  | [] => Ok []
  | x :: l' => y ← f x; ys ← collect f l'; mret (y :: ys)
  end.

(** [test_images[n, :, :, 0]]: image [n], channel 0 of every pixel. *)
Definition channel_0 {A} (images : list (list (list (list A)))) (n : nat)
  : result numpy_error (list (list A)) :=
  image ← item images n;
  collect (collect (λ px : list A, item px 0)) image.

(** ** Replacement dictionaries *)

Section Dict.
Implicit Types (val : list string) (m : gmap string Z) (x : string).

Lemma dict_unfold pairs : dict pairs = foldl put ∅ pairs.
Proof. reflexivity. Qed.

Lemma arange_from_cons k n :
  Z.of_nat <$> seq k (S n) = Z.of_nat k :: (Z.of_nat <$> seq (S k) n).
Proof. reflexivity. Qed.

Lemma fill_notin val k m x :
  x ∉ val →
  foldl put m (zip val (Z.of_nat <$> seq k (length val))) !! x = m !! x.
Proof.
  revert k m. induction val as [|y val IH]; intros k m Hx; [done|].
  apply not_elem_of_cons in Hx as [Hxy Hx]. cbn [length].
  rewrite arange_from_cons. cbn [zip zip_with foldl].
  rewrite IH by done. unfold put; simpl. by rewrite lookup_insert_ne.
Qed.

Lemma fill_nodup val k m x i :
  NoDup val → val !! i = Some x →
  foldl put m (zip val (Z.of_nat <$> seq k (length val))) !! x
  = Some (Z.of_nat (k + i)).
Proof.
  revert k m i. induction val as [|y val IH]; intros k m i Hnd Hi; [done|].
  apply NoDup_cons in Hnd as [Hy Hnd]. cbn [length].
  rewrite arange_from_cons. cbn [zip zip_with foldl].
  destruct i as [|i]; simpl in Hi.
  - injection Hi as ->. rewrite fill_notin by done.
    unfold put; simpl. rewrite lookup_insert_eq. do 2 f_equal. lia.
  - rewrite (IH (S k) _ i) by done. do 2 f_equal. lia.
Qed.

Lemma fill_sound val k m x z :
  foldl put m (zip val (Z.of_nat <$> seq k (length val))) !! x = Some z →
  m !! x = Some z ∨ ∃ i, val !! i = Some x ∧ z = Z.of_nat (k + i).
Proof.
  revert k m. induction val as [|y val IH]; intros k m; [by left|].
  cbn [length]. rewrite arange_from_cons. cbn [zip zip_with foldl].
  intros [H|(i & Hi & ->)]%IH.
  - unfold put in H; simpl in H.
    destruct (decide (y = x)) as [->|Hne].
    + rewrite lookup_insert_eq in H. injection H as <-.
      right. exists 0. split; [done|]. f_equal. lia.
    + rewrite lookup_insert_ne in H by done. by left.
  - right. exists (S i). split; [done|]. f_equal. lia.
Qed.

(** A string at position [i] of a duplicate-free vocabulary is stored under
    the code [i]. *)
Lemma val_dict_index val i x :
  NoDup val → val !! i = Some x → val_dict val !! x = Some (Z.of_nat i).
Proof.
  intros Hnd Hi. unfold val_dict, arange. rewrite dict_unfold.
  by rewrite (fill_nodup val 0 ∅ x i).
Qed.

(** Whatever code is stored under a string, the vocabulary has the string
    at that position. *)
Lemma val_dict_sound val x z :
  val_dict val !! x = Some z →
  ∃ i, val !! i = Some x ∧ z = Z.of_nat i.
Proof.
  unfold val_dict, arange. rewrite dict_unfold.
  intros [H|(i & Hi & ->)]%fill_sound; [by rewrite lookup_empty in H|].
  by exists i.
Qed.

Lemma val_dict_unknown val x : x ∉ val → val_dict val !! x = None.
Proof.
  intros Hx. unfold val_dict, arange. rewrite dict_unfold.
  by rewrite fill_notin.
Qed.

Lemma decode_of_nat val i : decode val (Num (Z.of_nat i)) = val !! i.
Proof.
  unfold decode. rewrite decide_True by lia. by rewrite Nat2Z.id.
Qed.
End Dict.

Example encode_o :
  replace_cell (val_dict ["n"; "o"; "t"]) (Str "o") = Num 1.
Proof. vm_compute. reflexivity. Qed.

(** ** Frames *)

Section Frames.
Implicit Types (df : DataFrame) (k key : string) (col : Series).
Implicit Types (items : list (string * list string)).

Lemma getitem_Ok_elem df k col : getitem df k = Ok col → (k, col) ∈ df.
Proof.
  induction df as [|[k' c] df IH]; simpl; [done|].
  case_decide as Hk.
  - intros [= ->]. subst. by left.
  - intros H. right. by apply IH.
Qed.

Lemma getitem_present df k : k ∈ columns df → ∃ col, getitem df k = Ok col.
Proof.
  unfold columns. induction df as [|[k' c] df IH]; simpl.
  - by intros ?%elem_of_nil.
  - intros Hk. case_decide as Hd; [by eexists|].
    apply elem_of_cons in Hk as [->|Hk]; [done|]. by apply IH.
Qed.

Lemma getitem_missing df k : k ∉ columns df → getitem df k = Raise (KeyError k).
Proof.
  unfold columns. induction df as [|[k' c] df IH]; simpl; [done|].
  intros [Hne Hk]%not_elem_of_cons. rewrite decide_False by done. by apply IH.
Qed.

Lemma getitem_Ok_columns df k col : getitem df k = Ok col → k ∈ columns df.
Proof.
  intros H%getitem_Ok_elem. unfold columns.
  apply list_elem_of_fmap. by exists (k, col).
Qed.

Lemma columns_inplace key f df : columns (inplace key f df) = columns df.
Proof.
  unfold columns, inplace. rewrite <- list_fmap_compose.
  apply list_fmap_ext. intros _ c _. simpl. by case_decide.
Qed.

Lemma columns_encode_frame items df : columns (encode_frame items df) = columns df.
Proof.
  unfold columns, encode_frame. rewrite <- list_fmap_compose.
  by apply list_fmap_ext.
Qed.

Lemma columns_read_csv df n : columns (read_csv df n) = columns df.
Proof.
  unfold columns, read_csv. rewrite <- list_fmap_compose.
  apply list_fmap_ext. by intros _ [k c] _.
Qed.

Lemma getitem_encode_frame items df k col :
  getitem df k = Ok col →
  getitem (encode_frame items df) k = Ok (encoder items k <$> col).
Proof.
  induction df as [|[k' c] df IH]; simpl; [done|].
  case_decide as Hk; [|done]. subst. by intros [= ->].
Qed.

Lemma getitem_encode_frame_raise items df k e :
  getitem df k = Raise e → getitem (encode_frame items df) k = Raise e.
Proof.
  induction df as [|[k' c] df IH]; simpl; [done|].
  by case_decide.
Qed.

Lemma encode_frame_nil df : encode_frame [] df = df.
Proof.
  unfold encode_frame. rewrite <- (list_fmap_id df) at 2.
  apply list_fmap_ext. intros _ [k c] _. simpl. by rewrite list_fmap_id.
Qed.

(** One iteration followed by the rest of the loop. *)
Lemma encode_frame_cons key val items df :
  encode_frame items (inplace key (replace (val_dict val)) df)
  = encode_frame ((key, val) :: items) df.
Proof.
  unfold encode_frame, inplace. rewrite <- list_fmap_compose.
  apply list_fmap_ext. intros _ [k c] _. simpl.
  case_decide as Hk; simpl; [|done].
  subst. unfold replace. by rewrite <- list_fmap_compose.
Qed.

Lemma set_values_id g : set_values (values g) g = g.
Proof. by destruct g. Qed.

Lemma remap_item_run key val g :
  remap_item (key, val) g =
  match getitem (values g) key with
  | Ok _ =>
      (Ok (), set_values (inplace key (replace (val_dict val)) (values g)) g)
  | Raise e => (Raise e, g)
  end.
Proof.
  unfold remap_item, eval, exec, mbind, cell_run_bind.
  by destruct (getitem (values g) key).
Qed.

Lemma for_each_cons {A} (item : A) l (body : A → cell_run ()) g :
  for_each (item :: l) body g =
  match body item g with
  | (Ok _, g') => for_each l body g'
  | (Raise e, g') => (Raise e, g')
  end.
Proof. reflexivity. Qed.

(** What the loop does, on every store: it gets through [processed], leaves
    [values] encoded by those items, and raises [KeyError] for the first key
    that is missing. *)
Lemma for_each_remap_item items g :
  for_each items remap_item g =
  (match first_missing items (columns (values g)) with
   | None => Ok ()
   | Some k => Raise (KeyError k)
   end,
   set_values
     (encode_frame (processed items (columns (values g))) (values g)) g).
Proof.
  revert g. induction items as [|[key val] items IH]; intros g.
  - simpl. by rewrite encode_frame_nil, set_values_id.
  - rewrite for_each_cons, remap_item_run.
    cbn [processed first_missing fst].
    destruct (decide (key ∈ columns (values g))) as [Hkey|Hkey].
    + destruct (getitem_present _ _ Hkey) as [col ->].
      rewrite IH. cbn [values set_values labels g_value_map].
      by rewrite columns_inplace, encode_frame_cons.
    + rewrite getitem_missing by done.
      by rewrite encode_frame_nil, set_values_id.
Qed.

Lemma remap_run g :
  remap g =
  (match first_missing (g_value_map g) (columns (values g)) with
   | None => Ok ()
   | Some k => Raise (KeyError k)
   end,
   set_values
     (encode_frame (processed (g_value_map g) (columns (values g)))
        (values g)) g).
Proof. unfold remap. apply for_each_remap_item. Qed.

Lemma first_missing_None items cols :
  first_missing items cols = None ↔ Forall (λ item, item.1 ∈ cols) items.
Proof.
  induction items as [|it items IH]; simpl.
  - split; [constructor|done].
  - case_decide as H.
    + rewrite IH. split; [by constructor|]. by intros [_ ?]%Forall_cons.
    + split; [done|]. by intros [? _]%Forall_cons.
Qed.

Lemma processed_all items cols :
  Forall (λ item, item.1 ∈ cols) items → processed items cols = items.
Proof.
  induction 1 as [|it items Hit _ IH]; simpl; [done|].
  by rewrite decide_True, IH.
Qed.

Lemma processed_subseteq items cols : processed items cols ⊆ items.
Proof.
  induction items as [|it items IH]; simpl; [done|].
  case_decide; [|apply list_subseteq_nil].
  intros x [->|Hx]%elem_of_cons; [by left|]. right. by apply IH.
Qed.

(** The loop completes exactly when every key labels a column of [values];
    the cells play no part in that. *)
Lemma remap_completes g :
  Forall (λ item, item.1 ∈ columns (values g)) (g_value_map g) →
  remap g = (Ok (), set_values (encode_frame (g_value_map g) (values g)) g).
Proof.
  intros Hall. unfold remap. rewrite for_each_remap_item.
  rewrite processed_all by done.
  by apply first_missing_None in Hall as ->.
Qed.

Lemma remap_Ok_inv g g' :
  remap g = (Ok (), g') →
  Forall (λ item, item.1 ∈ columns (values g)) (g_value_map g)
  ∧ g' = set_values (encode_frame (g_value_map g) (values g)) g.
Proof.
  unfold remap. rewrite for_each_remap_item.
  destruct (first_missing _ _) eqn:Hm; [done|].
  apply first_missing_None in Hm. rewrite processed_all by done.
  by intros [= <-].
Qed.
End Frames.

(** ** The cell function of a column *)

Section Encoder.
Implicit Types (items : list (string * list string)) (k key x : string).
Implicit Types (val : list string) (c : cell).

Lemma encoder_Num items k z : encoder items k (Num z) = Num z.
Proof.
  induction items as [|it items IH]; simpl; [done|]. by case_decide.
Qed.

(** A string either stays as it is or becomes a number. *)
Lemma encoder_Str items k x :
  encoder items k (Str x) = Str x ∨ ∃ z, encoder items k (Str x) = Num z.
Proof.
  induction items as [|it items IH]; simpl; [by left|].
  case_decide; [|done]. simpl.
  destruct (val_dict it.2 !! x) as [z|]; [|done].
  right. exists z. apply encoder_Num.
Qed.

Lemma encoder_idemp items k c :
  encoder items k (encoder items k c) = encoder items k c.
Proof.
  destruct c as [x|z]; [|by rewrite !encoder_Num].
  destruct (encoder_Str items k x) as [H|[z H]]; rewrite H.
  - exact H.
  - apply encoder_Num.
Qed.

(** Columns whose label is no key are not touched. *)
Lemma encoder_other items k c : k ∉ items.*1 → encoder items k c = c.
Proof.
  induction items as [|it items IH]; simpl; [done|].
  intros [Hne Hk]%not_elem_of_cons. rewrite decide_False by done. by apply IH.
Qed.

(** With distinct keys, the column [key] goes through the dictionary of its
    own vocabulary and through no other. *)
Lemma encoder_own items key val c :
  NoDup items.*1 → (key, val) ∈ items →
  encoder items key c = replace_cell (val_dict val) c
  ∨ ∃ z, c = Num z.
Proof.
  intros Hnd Hin. destruct c as [x|z]; [left|right; by eexists].
  induction items as [|[k v] items IH]; [by apply elem_of_nil in Hin|].
  simpl in Hnd. apply NoDup_cons in Hnd as [Hk Hnd].
  apply elem_of_cons in Hin as [[= <- <-]|Hin]; simpl.
  - rewrite decide_True by done.
    destruct (val_dict val !! x) as [z|].
    + apply encoder_Num.
    + by apply encoder_other.
  - rewrite decide_False; [by apply IH|]. intros <-.
    apply Hk. apply list_elem_of_fmap. by exists (key, val).
Qed.

Lemma encoder_known items key val i x :
  NoDup items.*1 → (key, val) ∈ items → NoDup val → val !! i = Some x →
  encoder items key (Str x) = Num (Z.of_nat i).
Proof.
  intros Hnd Hin Hval Hi.
  destruct (encoder_own items key val (Str x) Hnd Hin) as [->|[? [=]]].
  simpl. by rewrite (val_dict_index val i x).
Qed.

Lemma encoder_unknown items key val x :
  NoDup items.*1 → (key, val) ∈ items → x ∉ val →
  encoder items key (Str x) = Str x.
Proof.
  intros Hnd Hin Hx.
  destruct (encoder_own items key val (Str x) Hnd Hin) as [->|[? [=]]].
  simpl. by rewrite val_dict_unknown.
Qed.

Lemma encode_frame_idemp items (df : DataFrame) :
  encode_frame items (encode_frame items df) = encode_frame items df.
Proof.
  unfold encode_frame. rewrite <- list_fmap_compose.
  apply list_fmap_ext. intros _ [k col] _. simpl. f_equal.
  rewrite <- list_fmap_compose. apply list_fmap_ext. intros _ c _. simpl.
  apply encoder_idemp.
Qed.

Lemma encode_frame_lookup items (df : DataFrame) j k col :
  df !! j = Some (k, col) →
  encode_frame items df !! j = Some (k, encoder items k <$> col).
Proof. intros H. unfold encode_frame. by rewrite list_lookup_fmap, H. Qed.
End Encoder.


(** ** The loader *)

Section Loader.
Implicit Types (df fv fl : DataFrame) (k key label : string).
Implicit Types (vm : list (string * list string)).

Lemma elem_of_columns_filter label df k :
  k ∈ columns (filter (λ c, c.1 ≠ label) df) ↔ k ∈ columns df ∧ k ≠ label.
Proof.
  unfold columns. rewrite !list_elem_of_fmap. split.
  - intros ([k' col] & -> & [Hne Hin]%list_elem_of_filter). simpl in *.
    split; [|done]. by exists (k', col).
  - intros [([k' col] & -> & Hin) Hne]. exists (k', col).
    split; [done|]. by apply list_elem_of_filter.
Qed.

Lemma DataFrame_drop_present label df :
  label ∈ columns df →
  DataFrame_drop label df = Ok (filter (λ c, c.1 ≠ label) df).
Proof. intros H. unfold DataFrame_drop. by rewrite decide_True. Qed.

Lemma DataFrame_drop_missing label df :
  label ∉ columns df → DataFrame_drop label df = Raise (KeyError label).
Proof. intros H. unfold DataFrame_drop. by rewrite decide_False. Qed.

(** The cell, statement by statement. *)
Lemma prepare_run vm fv fl :
  let vals := read_csv fv N in
  let labs := read_csv fl N in
  let dropped (df : DataFrame) := filter (λ c, c.1 ≠ "building_id") df in
  prepare vm fv fl =
  if decide ("building_id" ∈ columns fv) then
    if decide ("building_id" ∈ columns fl) then
      remap (Globals vm (dropped vals) (dropped labs))
    else (Raise (KeyError "building_id"), Globals vm (dropped vals) labs)
  else (Raise (KeyError "building_id"), Globals vm vals labs).
Proof.
  intros vals labs dropped.
  unfold prepare, mbind, cell_run_bind, drop_values, drop_labels.
  cbn [values labels g_value_map].
  case_decide as Hv.
  - rewrite DataFrame_drop_present by by rewrite columns_read_csv.
    cbn [values labels g_value_map set_values].
    case_decide as Hl.
    + rewrite DataFrame_drop_present by by rewrite columns_read_csv.
      cbn [values labels g_value_map set_labels]. by destruct (remap _) as [[] ?].
    + by rewrite DataFrame_drop_missing by by rewrite columns_read_csv.
  - by rewrite DataFrame_drop_missing by by rewrite columns_read_csv.
Qed.

Lemma remap_fields g :
  g_value_map (remap g).2 = g_value_map g
  ∧ labels (remap g).2 = labels g
  ∧ columns (values (remap g).2) = columns (values g).
Proof.
  unfold remap. rewrite for_each_remap_item. simpl.
  by rewrite columns_encode_frame.
Qed.

Lemma remap_Ok_iff g :
  (remap g).1 = Ok ()
  ↔ Forall (λ item, item.1 ∈ columns (values g)) (g_value_map g).
Proof.
  rewrite remap_run. cbn [fst]. rewrite <- first_missing_None.
  by destruct (first_missing _ _).
Qed.

Lemma remap_raises_iff g :
  raises (remap g).1
  ↔ ¬ Forall (λ item, item.1 ∈ columns (values g)) (g_value_map g).
Proof.
  unfold remap. rewrite for_each_remap_item. simpl.
  rewrite <- first_missing_None.
  destruct (first_missing _ _); split.
  - done.
  - intros _. by eexists.
  - by intros [e ?].
  - by intros [].
Qed.
End Loader.

(** ** Properties of the encoding step *)

(** C1. For every column that the map configures and every cell of it whose
    string occurs in the column's vocabulary, the remapping loop completes
    and leaves in that cell the integer index of the string in the
    vocabulary, and looking that code up in the vocabulary gives the string
    back.  The keys of the map are distinct (it is a dict) and so are the
    strings of a vocabulary.  In particular the vocabulary
    ["n"; "o"; "t"] of [land_surface_condition] encodes ["o"] to [1]. *)
Theorem encoder_replaces_known_value
  (g : globals) (key : string) (val : list string) (col : Series)
  (r i : nat) (x : string) :
  NoDup (g_value_map g).*1 →
  Forall (λ item, item.1 ∈ columns (values g)) (g_value_map g) →
  (key, val) ∈ g_value_map g →
  NoDup val →
  getitem (values g) key = Ok col →
  col !! r = Some (Str x) →
  val !! i = Some x →
  (∃ g' col',
      remap g = (Ok (), g')
      ∧ getitem (values g') key = Ok col'
      ∧ col' !! r = Some (Num (Z.of_nat i))
      ∧ decode val (Num (Z.of_nat i)) = Some x)
  ∧ ("land_surface_condition", ["n"; "o"; "t"]) ∈ value_map
  ∧ replace (val_dict ["n"; "o"; "t"]) [Str "o"] = [Num 1]
  ∧ decode ["n"; "o"; "t"] (Num 1) = Some "o".
Proof.
  intros Hkeys Hall Hin Hval Hcol Hr Hi. split; [|split; [compute_done|split; by vm_compute]].
  exists (set_values (encode_frame (g_value_map g) (values g)) g).
  exists (encoder (g_value_map g) key <$> col).
  split; [by apply remap_completes|]. cbn [values set_values].
  split; [by apply getitem_encode_frame|].
  split; [|by rewrite decode_of_nat].
  rewrite list_lookup_fmap, Hr. simpl. f_equal.
  by apply (encoder_known _ key val).
Qed.

Lemma encoder_replaces_known_value_witness :
  ∃ g' col',
    remap (Globals value_map sample_values sample_labels) = (Ok (), g')
    ∧ getitem (values g') "land_surface_condition" = Ok col'
    ∧ col' !! 1 = Some (Num 1)
    ∧ decode ["n"; "o"; "t"] (Num 1) = Some "o".
Proof.
  apply (encoder_replaces_known_value
           (Globals value_map sample_values sample_labels)
           "land_surface_condition" ["n"; "o"; "t"] [Str "t"; Str "o"]
           1 1 "o").
  - compute_done.
  - compute_done.
  - compute_done.
  - compute_done.
  - vm_compute. reflexivity.
  - reflexivity.
  - reflexivity.
Defined.

(** C2, at a concrete input: the second record has the land surface
    condition ["z"], which its vocabulary does not have; the loop completes
    and that cell still holds the string. *)
Lemma unknown_value_not_rejected :
  let g := Globals value_map unknown_values sample_labels in
  ("z" ∉ ["n"; "o"; "t"])
  ∧ getitem (values g) "land_surface_condition" = Ok [Str "t"; Str "z"]
  ∧ ¬ raises (remap g).1
  ∧ (remap g).1 = Ok ()
  ∧ getitem (values (remap g).2) "land_surface_condition"
    = Ok [Num 2; Str "z"].
Proof.
  intros g. split; [compute_done|].
  split; [by vm_compute|].
  split; [intros [e He]; by vm_compute in He|].
  split; by vm_compute.
Qed.

(** C2, as the code has it: when a cell of a configured column holds a
    string that is absent from the column's vocabulary, the loop does not
    fail on it; with every configured column present it completes, and the
    cell keeps the original string. *)
Theorem encoder_keeps_unknown_value
  (g : globals) (key : string) (val : list string) (col : Series)
  (r : nat) (x : string) :
  NoDup (g_value_map g).*1 →
  Forall (λ item, item.1 ∈ columns (values g)) (g_value_map g) →
  (key, val) ∈ g_value_map g →
  getitem (values g) key = Ok col →
  col !! r = Some (Str x) →
  x ∉ val →
  ∃ g' col',
    remap g = (Ok (), g')
    ∧ getitem (values g') key = Ok col'
    ∧ col' !! r = Some (Str x).
Proof.
  intros Hkeys Hall Hin Hcol Hr Hx.
  exists (set_values (encode_frame (g_value_map g) (values g)) g).
  exists (encoder (g_value_map g) key <$> col).
  split; [by apply remap_completes|]. cbn [values set_values].
  split; [by apply getitem_encode_frame|].
  rewrite list_lookup_fmap, Hr. simpl. f_equal.
  by apply (encoder_unknown _ key val).
Qed.

Lemma encoder_keeps_unknown_value_witness :
  ∃ g' col',
    remap (Globals value_map unknown_values sample_labels) = (Ok (), g')
    ∧ getitem (values g') "land_surface_condition" = Ok col'
    ∧ col' !! 1 = Some (Str "z").
Proof.
  apply (encoder_keeps_unknown_value
           (Globals value_map unknown_values sample_labels)
           "land_surface_condition" ["n"; "o"; "t"] [Str "t"; Str "z"]
           1 "z").
  - compute_done.
  - compute_done.
  - compute_done.
  - vm_compute. reflexivity.
  - reflexivity.
  - compute_done.
Defined.

(** C9. Whether the loop completes or raises, it changes nothing but the
    cells of configured columns: the map and its vocabularies are the same
    afterwards, so are the labels and the column labels of [values], and
    every column whose label is not a key of the map is the same column, at
    the same place, as before. *)
Theorem encoder_frame_effect (g : globals) :
  g_value_map (remap g).2 = g_value_map g
  ∧ labels (remap g).2 = labels g
  ∧ columns (values (remap g).2) = columns (values g)
  ∧ (∀ (j : nat) (k : string) (col : Series),
        values g !! j = Some (k, col) →
        k ∉ (g_value_map g).*1 →
        values (remap g).2 !! j = Some (k, col))
  ∧ (∀ k : string,
        k ∉ (g_value_map g).*1 →
        getitem (values (remap g).2) k = getitem (values g) k).
Proof.
  destruct (remap_fields g) as (Hvm & Hlab & Hcols).
  do 3 (split; [done|]).
  assert (∀ k, k ∉ (g_value_map g).*1 →
               k ∉ (processed (g_value_map g) (columns (values g))).*1) as Hsub.
  { intros k Hk [it [-> Hit]]%list_elem_of_fmap. apply Hk.
    apply list_elem_of_fmap. exists it. split; [done|].
    by apply (processed_subseteq _ (columns (values g))). }
  unfold remap. rewrite for_each_remap_item. cbn [snd values set_values].
  split.
  - intros j k col Hj Hk.
    rewrite (encode_frame_lookup _ _ j k col) by done. do 2 f_equal.
    rewrite <- (list_fmap_id col) at 2.
    apply list_fmap_ext. intros _ c _. apply encoder_other. by apply Hsub.
  - intros k Hk. destruct (getitem (values g) k) as [col|e] eqn:Hget.
    + rewrite (getitem_encode_frame _ _ _ col) by done. f_equal.
      rewrite <- (list_fmap_id col) at 2.
      apply list_fmap_ext. intros _ c _. apply encoder_other. by apply Hsub.
    + by apply getitem_encode_frame_raise.
Qed.

Lemma encoder_frame_effect_witness :
  let g := Globals value_map sample_values sample_labels in
  values (remap g).2 !! 1 = Some ("count_floors_pre_eq", [Num 2; Num 2])
  ∧ getitem (values (remap g).2) "building_id" = getitem (values g) "building_id".
Proof.
  intros g.
  destruct (encoder_frame_effect g) as (_ & _ & _ & Hpos & Hget).
  split.
  - apply (Hpos 1 "count_floors_pre_eq" [Num 2; Num 2]%Z).
    + reflexivity.
    + compute_done.
  - apply (Hget "building_id"). compute_done.
Defined.

(** C10. Running the loop again on the store that a first run left changes
    no column (and ends the same way): a cell that the first run turned into
    a number matches no key, which are strings, and a string that it left is
    left again. *)
Theorem encoder_idempotent (g : globals) :
  (remap (remap g).2).2 = (remap g).2
  ∧ (remap (remap g).2).1 = (remap g).1.
Proof.
  destruct (remap_fields g) as (Hvm & Hlab & Hcols).
  rewrite (remap_run (remap g).2), Hvm, Hcols.
  rewrite !(remap_run g). cbn [fst snd values set_values].
  by rewrite encode_frame_idemp.
Qed.

(** ** Properties of the loader *)

(** C6. Whatever the two files hold, [values], the feature matrix that goes
    on to the split and to everything after it, has no column
    [building_id] once the cell has run; and when the cell completes, the
    column has been dropped from both tables and nothing else has: the other
    columns of both files are all still there. *)
Theorem identifier_dropped
  (vm : list (string * list string)) (file_values file_labels : DataFrame) :
  ("building_id" ∉ columns (values (prepare vm file_values file_labels).2))
  ∧ ((prepare vm file_values file_labels).1 = Ok () →
     ("building_id"
        ∉ columns (labels (prepare vm file_values file_labels).2))
     ∧ (∀ k, k ∈ columns (values (prepare vm file_values file_labels).2)
             ↔ k ∈ columns file_values ∧ k ≠ "building_id")
     ∧ (∀ k, k ∈ columns (labels (prepare vm file_values file_labels).2)
             ↔ k ∈ columns file_labels ∧ k ≠ "building_id")).
Proof.
  rewrite prepare_run.
  destruct (decide ("building_id" ∈ columns file_values)) as [Hv|Hv].
  - destruct (decide ("building_id" ∈ columns file_labels)) as [Hl|Hl].
    + match goal with |- context [remap ?g0] =>
        destruct (remap_fields g0) as (_ & -> & ->) end.
      cbn [values labels].
      split; [|intros _; split; [|split]].
      * rewrite elem_of_columns_filter. by intros [_ ?].
      * rewrite elem_of_columns_filter. by intros [_ ?].
      * intros k. by rewrite elem_of_columns_filter, columns_read_csv.
      * intros k. by rewrite elem_of_columns_filter, columns_read_csv.
    + cbn [fst snd values]. split; [|done].
      rewrite elem_of_columns_filter. by intros [_ ?].
  - cbn [fst snd values]. split; [|done]. by rewrite columns_read_csv.
Qed.

Lemma identifier_dropped_witness :
  ("building_id"
     ∉ columns (labels (prepare value_map sample_values sample_labels).2))
  ∧ ("building_id"
       ∉ columns (values (prepare value_map sample_values sample_labels).2)).
Proof.
  destruct (identifier_dropped value_map sample_values sample_labels)
    as [Hvalues Hdone].
  split; [|exact Hvalues].
  apply Hdone. vm_compute. reflexivity.
Defined.

(** C7, at a concrete input: a feature file of 50 rows and a label file of
    49 rows, with every configured column; the cell completes and leaves
    tables of 50 and of 49 rows. *)
Lemma mismatched_row_counts_accepted :
  let out := prepare value_map (values_file 50) (labels_file 49) in
  nrows (values_file 50) = 50 ∧ nrows (labels_file 49) = 49
  ∧ out.1 = Ok () ∧ ¬ raises out.1
  ∧ nrows (values out.2) = 50 ∧ nrows (labels out.2) = 49.
Proof.
  intros out. do 2 (split; [by vm_compute|]).
  split; [by vm_compute|].
  split; [intros [e He]; by vm_compute in He|].
  split; by vm_compute.
Qed.

(** C7, as the code has it: the cell fails, with [KeyError], when a
    configured categorical column is absent from the feature file (or when
    [building_id] is absent from either file), and in no other case: it
    completes exactly when those columns are there, so the row counts of the
    two files are never compared and files of different lengths are
    loaded. *)
Theorem loader_fails_on_missing_column_only
  (vm : list (string * list string)) (file_values file_labels : DataFrame) :
  (∀ key : string,
      key ∈ vm.*1 → key ∉ columns file_values →
      ∃ label, (prepare vm file_values file_labels).1 = Raise (KeyError label))
  ∧ ((prepare vm file_values file_labels).1 = Ok ()
     ↔ "building_id" ∈ columns file_values
       ∧ "building_id" ∈ columns file_labels
       ∧ Forall (λ item, item.1 ∈ columns file_values
                         ∧ item.1 ≠ "building_id") vm).
Proof.
  assert ((prepare vm file_values file_labels).1 = Ok ()
     ↔ "building_id" ∈ columns file_values
       ∧ "building_id" ∈ columns file_labels
       ∧ Forall (λ item, item.1 ∈ columns file_values
                         ∧ item.1 ≠ "building_id") vm) as Hiff.
  { rewrite prepare_run.
    destruct (decide ("building_id" ∈ columns file_values)) as [Hv|Hv];
      [|by split; [|intros [? _]]].
    destruct (decide ("building_id" ∈ columns file_labels)) as [Hl|Hl];
      [|by split; [|intros (_ & ? & _)]].
    rewrite remap_Ok_iff. cbn [values g_value_map].
    split.
    - intros Hall. do 2 (split; [done|]).
      eapply Forall_impl; [exact Hall|]. intros it Hit. simpl in Hit.
      by rewrite elem_of_columns_filter, columns_read_csv in Hit.
    - intros (_ & _ & Hall).
      eapply Forall_impl; [exact Hall|]. intros it Hit. simpl in *.
      by rewrite elem_of_columns_filter, columns_read_csv. }
  split; [|exact Hiff].
  intros key [it [-> Hit]]%list_elem_of_fmap Hkey.
  destruct (prepare vm file_values file_labels).1 as [[]|[label]] eqn:Hrun;
    [|by exists label].
  destruct (proj1 Hiff eq_refl) as (_ & _ & Hall).
  rewrite Forall_forall in Hall. by destruct (Hall it Hit).
Qed.

Lemma loader_fails_on_missing_column_only_witness :
  (∃ label,
      (prepare value_map no_roof_values sample_labels).1
      = Raise (KeyError label))
  ∧ (prepare value_map sample_values sample_labels).1 = Ok ().
Proof.
  split.
  - apply (proj1 (loader_fails_on_missing_column_only
                    value_map no_roof_values sample_labels) "roof_type").
    + compute_done.
    + compute_done.
  - apply (proj2 (loader_fails_on_missing_column_only
                    value_map sample_values sample_labels)).
    split; [compute_done|]. split; compute_done.
Defined.

(** ** The split: rounding, rows, index lists *)

Section Rounding.
Lemma round_cases q : round q = Qfloor q ∨ round q = (Qfloor q + 1)%Z.
Proof.
  unfold round. destruct (_ ?= _)%Q; [destruct (Z.even _)|..]; auto.
Qed.

(** A fraction of [n] rows, rounded, is a number of rows between 0 and [n]. *)
Lemma round_bounds (f : Q) (n : Z) :
  (0 < f)%Q → (f < 1)%Q → (0 < n)%Z → (0 ≤ round (f * inject_Z n) ≤ n)%Z.
Proof.
  intros Hf0 Hf1 Hn.
  assert (0 < inject_Z n)%Q as Hz
    by (change (inject_Z 0 < inject_Z n)%Q; by rewrite <- Zlt_Qlt).
  set (q := (f * inject_Z n)%Q).
  assert (0 <= q)%Q as Hq0 by (unfold q; nra).
  assert (q < inject_Z n)%Q as Hq1 by (unfold q; nra).
  assert (0 ≤ Qfloor q)%Z as Hlo0 by (apply (Qfloor_resp_le 0 q Hq0)).
  assert (Qfloor q < n)%Z as Hlo1.
  { rewrite Zlt_Qlt. eapply Qle_lt_trans; [apply Qfloor_le|done]. }
  destruct (round_cases q) as [-> | ->]; lia.
Qed.

Lemma in_unit_interval_true f :
  in_unit_interval f = true ↔ (0 < f)%Q ∧ (f < 1)%Q.
Proof.
  unfold in_unit_interval.
  destruct (Qlt_le_dec 0 f) as [H0|H0]; [destruct (Qlt_le_dec f 1) as [H1|H1]|].
  - done.
  - split; [done|]. intros [_ H]. by apply Qle_not_lt in H1.
  - split; [done|]. intros [H _]. by apply Qle_not_lt in H0.
Qed.
End Rounding.

Section Rows.
Context {A : Type}.
Implicit Types (l : list A) (idx : list nat).

Lemma take_rows_cons i idx l x :
  l !! i = Some x → take_rows (i :: idx) l = x :: take_rows idx l.
Proof. intros H. unfold take_rows. simpl. by rewrite H. Qed.

(** With every index in range, the selection has one row per index, the row
    of that index. *)
Lemma take_rows_lookup idx l j :
  Forall (λ i, i < length l) idx →
  take_rows idx l !! j = idx !! j ≫= (λ i, l !! i).
Proof.
  intros Hall. revert j. induction Hall as [|i idx Hi _ IH]; intros j; [done|].
  destruct (lookup_lt_is_Some_2 l i Hi) as [x Hx].
  rewrite (take_rows_cons i idx l x Hx).
  destruct j as [|j]; simpl; [done|]. apply IH.
Qed.

Lemma take_rows_length idx l :
  Forall (λ i, i < length l) idx → length (take_rows idx l) = length idx.
Proof.
  induction 1 as [|i idx Hi _ IH]; [done|].
  destruct (lookup_lt_is_Some_2 l i Hi) as [x Hx].
  rewrite (take_rows_cons i idx l x Hx). simpl. by rewrite IH.
Qed.
End Rows.

Section Arrangements.
Implicit Types (p : list nat) (n k : nat).

Lemma arrangement_length p n : p ≡ₚ seq 0 n → length p = n.
Proof. intros ->. apply length_seq. Qed.

Lemma arrangement_in_range p n : p ≡ₚ seq 0 n → Forall (λ i, i < n) p.
Proof.
  intros Hp. apply Forall_forall. intros i Hi.
  rewrite Hp in Hi. apply elem_of_seq in Hi. lia.
Qed.

Lemma arrangement_cut_NoDup p n k :
  p ≡ₚ seq 0 n → NoDup (skipn k p ++ take k p).
Proof.
  intros Hp.
  assert (skipn k p ++ take k p ≡ₚ p) as ->
    by (by rewrite Permutation_app_comm, take_drop).
  rewrite Hp. apply NoDup_seq.
Qed.

Lemma arrangement_cut_covers p n k i :
  p ≡ₚ seq 0 n → (i ∈ skipn k p ∨ i ∈ take k p) ↔ i < n.
Proof.
  intros Hp. rewrite <- elem_of_app.
  assert (skipn k p ++ take k p ≡ₚ p) as ->
    by (by rewrite Permutation_app_comm, take_drop).
  rewrite Hp, elem_of_seq. lia.
Qed.

Lemma counter_permutation_spec g n : (counter_permutation g n).1 ≡ₚ seq 0 n.
Proof.
  unfold counter_permutation, rotate. cbn [fst].
  by rewrite Permutation_app_comm, take_drop.
Qed.
End Arrangements.

Section Partition.
Context {rng : Type}.
Variable seed_rng : Z → rng.
Variable permutation : rng → nat → list nat * rng.
Hypothesis permutation_spec : ∀ g n, (permutation g n).1 ≡ₚ seq 0 n.

Lemma draw_spec seed n g : (draw seed_rng permutation seed n g).1 ≡ₚ seq 0 n.
Proof using permutation_spec. destruct seed; apply permutation_spec. Qed.

(** The accepted case, written out. *)
Lemma SplitPartitioner_accepts {X Y} (D : Dataset X Y) f seed g :
  in_unit_interval f = true → size D ≠ 0 →
  SplitPartitioner seed_rng permutation D f seed g =
  let p := (draw seed_rng permutation seed (size D) g).1 in
  let n_test := Z.to_nat (round (f * inject_Z (Z.of_nat (size D)))) in
  (Ok (mkSplit (skipn n_test p) (take n_test p)
         (subset D (skipn n_test p)) (subset D (take n_test p))),
   (draw seed_rng permutation seed (size D) g).2).
Proof using Type.
  intros Hf HD. unfold SplitPartitioner. rewrite Hf. simpl.
  rewrite decide_False by done. by destruct (draw _ _ _ _ _).
Qed.

Lemma SplitPartitioner_Ok_inv {X Y} (D : Dataset X Y) f seed g sp :
  (SplitPartitioner seed_rng permutation D f seed g).1 = Ok sp →
  in_unit_interval f = true ∧ size D ≠ 0.
Proof using Type.
  unfold SplitPartitioner.
  destruct (in_unit_interval f); simpl; [|done].
  by case_decide.
Qed.
End Partition.

(** ** Properties of the split *)

Section SplitProperties.
Context {rng : Type}.
Variable seed_rng : Z → rng.
Variable permutation : rng → nat → list nat * rng.
Hypothesis permutation_spec : ∀ g n, (permutation g n).1 ≡ₚ seq 0 n.

Local Abbreviation split_of := (SplitPartitioner seed_rng permutation).

(** The accepted case: sizes, and the two index lists as a partition of the
    index range. *)
Lemma split_partition {X Y} (D : Dataset X Y) (f : Q) (seed : option Z)
  (ambient : rng) :
  1 ≤ size D → (0 < f)%Q → (f < 1)%Q →
  ∃ sp,
    (split_of D f seed ambient).1 = Ok sp
    ∧ features (test sp) = take_rows (ind_test sp) (features D)
    ∧ features (train sp) = take_rows (ind_train sp) (features D)
    ∧ length (features (test sp)) = length (ind_test sp)
    ∧ length (features (train sp)) = length (ind_train sp)
    ∧ Z.of_nat (length (features (test sp)))
      = round (f * inject_Z (Z.of_nat (size D)))
    ∧ length (features (train sp)) = size D - length (features (test sp))
    ∧ (∀ i, i ∈ ind_train sp → i ∉ ind_test sp)
    ∧ NoDup (ind_train sp ++ ind_test sp)
    ∧ (∀ i, i ∈ ind_train sp ∨ i ∈ ind_test sp ↔ i < size D).
Proof using permutation_spec.
  intros HD Hf0 Hf1.
  rewrite SplitPartitioner_accepts;
    [|by apply in_unit_interval_true|lia].
  set (p := (draw seed_rng permutation seed (size D) ambient).1).
  set (k := Z.to_nat (round (f * inject_Z (Z.of_nat (size D))))).
  assert (p ≡ₚ seq 0 (size D)) as Hp by apply draw_spec, permutation_spec.
  pose proof (arrangement_length _ _ Hp) as Hlen.
  pose proof (arrangement_in_range _ _ Hp) as Hrange.
  pose proof (round_bounds f (Z.of_nat (size D)) Hf0 Hf1 ltac:(lia)) as Hk.
  assert (k ≤ size D) as Hk' by (unfold k; lia).
  eexists. split; [reflexivity|].
  cbn [fst ind_train ind_test train test subset features].
  assert (length (take_rows (take k p) (features D)) = k) as Htest.
  { rewrite take_rows_length by by apply Forall_take.
    rewrite length_take. lia. }
  assert (length (take_rows (skipn k p) (features D)) = size D - k) as Htrain.
  { rewrite take_rows_length by by apply Forall_drop.
    rewrite length_drop. lia. }
  do 2 (split; [done|]).
  split; [rewrite Htest, length_take; lia|].
  split; [rewrite Htrain, length_drop; lia|].
  split; [rewrite Htest; unfold k; lia|].
  split; [by rewrite Htest, Htrain|].
  pose proof (arrangement_cut_NoDup p (size D) k Hp) as Hnd.
  split; [by apply NoDup_app in Hnd as (_ & ? & _)|].
  split; [done|].
  intros i. by apply arrangement_cut_covers.
Qed.

(** C3. For a dataset of at least one row and a fraction strictly between 0
    and 1 the split is made: the test subset has exactly
    [round(f * |D|)] rows and the train subset the other
    [|D| - round(f * |D|)]; no row index is on both sides, no index is
    taken twice, and the indices of the two sides together are exactly
    [0 .. |D|-1].  In particular 100 rows and the fraction 0.2 give 20 test
    rows and 80 train rows with no index on both sides. *)
Theorem split_sizes_and_partition {X Y} (D : Dataset X Y) (f : Q)
  (seed : option Z) (ambient : rng) :
  1 ≤ size D → (0 < f)%Q → (f < 1)%Q →
  (∃ sp,
      (split_of D f seed ambient).1 = Ok sp
      ∧ features (test sp) = take_rows (ind_test sp) (features D)
      ∧ features (train sp) = take_rows (ind_train sp) (features D)
      ∧ length (features (test sp)) = length (ind_test sp)
      ∧ length (features (train sp)) = length (ind_train sp)
      ∧ Z.of_nat (length (features (test sp)))
        = round (f * inject_Z (Z.of_nat (size D)))
      ∧ length (features (train sp)) = size D - length (features (test sp))
      ∧ (∀ i, i ∈ ind_train sp → i ∉ ind_test sp)
      ∧ NoDup (ind_train sp ++ ind_test sp)
      ∧ (∀ i, i ∈ ind_train sp ∨ i ∈ ind_test sp ↔ i < size D))
  ∧ (size D = 100 →
     ∃ sp,
       (split_of D (2 # 10) seed ambient).1 = Ok sp
       ∧ length (features (test sp)) = 20
       ∧ length (features (train sp)) = 80
       ∧ (∀ i, i ∈ ind_train sp → i ∉ ind_test sp)).
Proof using permutation_spec.
  intros HD Hf0 Hf1. split; [by apply split_partition|].
  intros H100.
  destruct (split_partition D (2 # 10) seed ambient HD)
    as (sp & Hrun & _ & _ & _ & _ & Htest & Htrain & Hdisj & _); [done..|].
  exists sp. split; [done|].
  rewrite H100 in Htest, Htrain.
  assert (round ((2 # 10) * inject_Z (Z.of_nat 100)) = 20%Z) as Hround
    by (by vm_compute).
  rewrite Hround in Htest.
  split; [lia|]. split; [lia|done].
Qed.

(** C5. When the split of an aligned dataset is made, each side is aligned
    again (as many labels as feature rows), and every feature row of a side
    sits next to the label it was paired with in the input: the row at
    position [j] of a side is the input row of some index [i], and the label
    at position [j] of that side is the input label of the same [i]. *)
Theorem split_preserves_pairing {X Y} (D : Dataset X Y) (f : Q)
  (seed : option Z) (ambient : rng) (sp : Split X Y) :
  aligned D →
  (split_of D f seed ambient).1 = Ok sp →
  aligned (train sp) ∧ aligned (test sp)
  ∧ (∀ j x, features (train sp) !! j = Some x →
       ∃ i y, ind_train sp !! j = Some i
              ∧ features D !! i = Some x ∧ targets D !! i = Some y
              ∧ targets (train sp) !! j = Some y)
  ∧ (∀ j x, features (test sp) !! j = Some x →
       ∃ i y, ind_test sp !! j = Some i
              ∧ features D !! i = Some x ∧ targets D !! i = Some y
              ∧ targets (test sp) !! j = Some y).
Proof using permutation_spec.
  intros HD Hrun.
  destruct (SplitPartitioner_Ok_inv _ _ _ _ _ _ _ Hrun) as [Hf Hsize].
  rewrite SplitPartitioner_accepts in Hrun by done.
  set (p := (draw seed_rng permutation seed (size D) ambient).1) in *.
  set (k := Z.to_nat (round (f * inject_Z (Z.of_nat (size D))))) in *.
  cbn [fst] in Hrun. injection Hrun as <-.
  assert (p ≡ₚ seq 0 (size D)) as Hp by apply draw_spec, permutation_spec.
  pose proof (arrangement_in_range _ _ Hp) as Hrange.
  assert (∀ idx, Forall (λ i, i < size D) idx →
            aligned (subset D idx)
            ∧ ∀ j x, features (subset D idx) !! j = Some x →
                ∃ i y, idx !! j = Some i
                       ∧ features D !! i = Some x ∧ targets D !! i = Some y
                       ∧ targets (subset D idx) !! j = Some y) as Hside.
  { intros idx Hidx. unfold aligned, subset. cbn [features targets].
    assert (Forall (λ i, i < length (targets D)) idx) as Hidx'
      by (by rewrite <- HD).
    split; [by rewrite !take_rows_length|].
    intros j x. rewrite !take_rows_lookup by done.
    destruct (idx !! j) as [i|] eqn:Hj; simpl; [|done].
    intros Hx. apply list_elem_of_lookup_2, (proj1 (Forall_forall _ _) Hidx') in Hj.
    destruct (lookup_lt_is_Some_2 (targets D) i Hj) as [y Hy].
    exists i, y. by rewrite Hy. }
  cbn [train test ind_train ind_test].
  destruct (Hside (skipn k p)) as [Ha Hb]; [by apply Forall_drop|].
  destruct (Hside (take k p)) as [Hc Hd]; [by apply Forall_take|].
  done.
Qed.

End SplitProperties.

(** ** The split on concrete data *)

Lemma split_sizes_and_partition_witness :
  ∃ sp,
    (SplitPartitioner counter_seed counter_permutation
       (numbered 100) (2 # 10) (Some 0%Z) 0).1 = Ok sp
    ∧ length (features (test sp)) = 20
    ∧ length (features (train sp)) = 80
    ∧ (∀ i, i ∈ ind_train sp → i ∉ ind_test sp).
Proof.
  apply (proj2 (split_sizes_and_partition
                  counter_seed counter_permutation counter_permutation_spec
                  (numbered 100) (2 # 10) (Some 0%Z) 0
                  ltac:(vm_compute; lia) eq_refl eq_refl)).
  reflexivity.
Defined.

Lemma split_preserves_pairing_witness :
  let sp :=
    mkSplit [5; 6; 7; 8; 9; 0; 1; 2] [3; 4]
      (mkDataset [5; 6; 7; 8; 9; 0; 1; 2]
         [1005; 1006; 1007; 1008; 1009; 1000; 1001; 1002])
      (mkDataset [3; 4] [1003; 1004]) in
  aligned (train sp) ∧ aligned (test sp)
  ∧ (∀ j x, features (train sp) !! j = Some x →
       ∃ i y, ind_train sp !! j = Some i
              ∧ features (numbered 10) !! i = Some x
              ∧ targets (numbered 10) !! i = Some y
              ∧ targets (train sp) !! j = Some y)
  ∧ (∀ j x, features (test sp) !! j = Some x →
       ∃ i y, ind_test sp !! j = Some i
              ∧ features (numbered 10) !! i = Some x
              ∧ targets (numbered 10) !! i = Some y
              ∧ targets (test sp) !! j = Some y).
Proof.
  intros sp.
  apply (split_preserves_pairing
           counter_seed counter_permutation counter_permutation_spec
           (numbered 10) (2 # 10) (Some 3%Z) 0 sp).
  - reflexivity.
  - vm_compute. reflexivity.
Defined.

(** * Further properties of the notebooks' code *)

Local Open Scope list_scope.

(** ** The replacement dictionary, for any vocabulary *)

Section DictLast.
Implicit Types (val : list string) (m : gmap string Z) (x : string).

(** A string of the vocabulary is stored under its last position: a later
    pair of [zip] overwrites an earlier one with the same key. *)
Lemma fill_last val k m x :
  x ∈ val →
  ∃ i, val !! i = Some x
       ∧ (∀ j, i < j → val !! j ≠ Some x)
       ∧ foldl put m (zip val (Z.of_nat <$> seq k (length val))) !! x
         = Some (Z.of_nat (k + i)).
Proof.
  revert k m. induction val as [|y val IH]; intros k m Hx.
  - by apply elem_of_nil in Hx.
  - cbn [length]. rewrite arange_from_cons. cbn [zip zip_with foldl].
    destruct (decide (x ∈ val)) as [Hin|Hout].
    + destruct (IH (S k) (put m (y, Z.of_nat k)) Hin) as (i & Hi & Hlast & Hget).
      exists (S i). split; [done|]. split.
      * intros [|j] Hj; [lia|]. simpl. apply Hlast. lia.
      * rewrite Hget. do 2 f_equal. lia.
    + apply elem_of_cons in Hx as [->|Hx]; [|done].
      exists 0. split; [done|]. split.
      * intros [|j] Hj; [lia|]. simpl. intros Hj'.
        apply Hout. by eapply list_elem_of_lookup_2.
      * rewrite fill_notin by done. unfold put; simpl.
        rewrite lookup_insert_eq. do 2 f_equal. lia.
Qed.

Lemma val_dict_known val x : x ∈ val → is_Some (val_dict val !! x).
Proof.
  intros Hx. unfold val_dict, arange, dict.
  destruct (fill_last val 0 ∅ x Hx) as (i & _ & _ & ->). by eexists.
Qed.
End DictLast.

(** X1. The dictionary [dict(zip(val, np.arange(len(val))))] holds a code
    for a string exactly when the string occurs in the vocabulary, and the
    code is then the last position at which it occurs; so every code is a
    position of the vocabulary, and a vocabulary that repeats a string
    encodes it by the later position. *)
Theorem val_dict_last_position (val : list string) (x : string) (z : Z) :
  val_dict val !! x = Some z
  ↔ ∃ i : nat,
      z = Z.of_nat i ∧ val !! i = Some x ∧ ∀ j, i < j → val !! j ≠ Some x.
Proof.
  split.
  - intros Hz.
    destruct (decide (x ∈ val)) as [Hx|Hx];
      [|by rewrite val_dict_unknown in Hz].
    destruct (fill_last val 0 ∅ x Hx) as (i & Hi & Hlast & Hget).
    unfold val_dict, arange, dict in Hz. rewrite Hget in Hz.
    injection Hz as <-. by exists i.
  - intros (i & -> & Hi & Hlast).
    assert (x ∈ val) as Hx by (by eapply list_elem_of_lookup_2).
    destruct (fill_last val 0 ∅ x Hx) as (i' & Hi' & Hlast' & Hget).
    unfold val_dict, arange, dict. rewrite Hget. do 2 f_equal.
    destruct (Nat.lt_trichotomy i i') as [Hlt|[->|Hlt]]; [|done|].
    + by destruct (Hlast i' Hlt).
    + by destruct (Hlast' i Hlt).
Qed.

Lemma val_dict_last_position_witness :
  val_dict ["n"; "o"; "n"] !! "n" = Some 2%Z.
Proof.
  apply (proj2 (val_dict_last_position ["n"; "o"; "n"] "n" 2)).
  exists 2. split; [reflexivity|]. split; [reflexivity|].
  intros [|[|[|j]]] Hj; try lia; discriminate.
Defined.

(** ** The remapping loop, continued *)

Section LoopFacts.
Implicit Types (items pre post : list (string * list string)).
Implicit Types (key k x : string) (val : list string) (c : cell).

(** With distinct keys a column goes through the dictionary of its own
    vocabulary, once. *)
Lemma encoder_single items key val c :
  NoDup items.*1 → (key, val) ∈ items →
  encoder items key c = replace_cell (val_dict val) c.
Proof.
  intros Hnd Hin.
  destruct (encoder_own items key val c Hnd Hin) as [->|[z ->]]; [done|].
  by rewrite encoder_Num.
Qed.

Lemma processed_stop pre key val post cols :
  Forall (λ item, item.1 ∈ cols) pre → key ∉ cols →
  processed (pre ++ (key, val) :: post) cols = pre.
Proof.
  induction 1 as [|it pre Hit _ IH]; intros Hkey; simpl.
  - by rewrite decide_False.
  - by rewrite decide_True, IH.
Qed.

Lemma first_missing_stop pre key val post cols :
  Forall (λ item, item.1 ∈ cols) pre → key ∉ cols →
  first_missing (pre ++ (key, val) :: post) cols = Some key.
Proof.
  induction 1 as [|it pre Hit _ IH]; intros Hkey; simpl.
  - by rewrite decide_False.
  - by rewrite decide_True, IH.
Qed.

Lemma encoder_Permutation items items' k c :
  NoDup items.*1 → items ≡ₚ items' →
  encoder items k c = encoder items' k c.
Proof.
  intros Hnd Hperm.
  assert (NoDup items'.*1) as Hnd' by (by rewrite <- Hperm).
  destruct (decide (k ∈ items.*1)) as [Hk|Hk].
  - apply list_elem_of_fmap in Hk as ([k' val] & -> & Hin). simpl.
    rewrite (encoder_single items k' val) by done.
    rewrite (encoder_single items' k' val); [done..|by rewrite <- Hperm].
  - rewrite encoder_other by done.
    rewrite encoder_other; [done|by rewrite <- Hperm].
Qed.

Lemma replace_cell_Str_inj val x y :
  replace_cell (val_dict val) (Str x) = replace_cell (val_dict val) (Str y) →
  x = y.
Proof.
  simpl.
  destruct (val_dict val !! x) as [zx|] eqn:Hx;
    destruct (val_dict val !! y) as [zy|] eqn:Hy; try done.
  - intros [= <-].
    apply val_dict_sound in Hx as (i & Hi & ->).
    apply val_dict_sound in Hy as (j & Hj & Hij).
    apply Nat2Z.inj in Hij as <-. congruence.
  - by intros [= ->].
Qed.
End LoopFacts.

(** X2. A completed run loses nothing on the strings of a configured column:
    two cells of the column that held strings hold equal values afterwards
    only if the strings were equal, whatever the vocabulary (known strings
    get distinct codes, unknown strings stay themselves, and a code is never
    a string). *)
Theorem encoder_injective_on_strings
  (g : globals) (key : string) (val : list string) (col : Series)
  (r1 r2 : nat) (x y : string) :
  NoDup (g_value_map g).*1 →
  Forall (λ item, item.1 ∈ columns (values g)) (g_value_map g) →
  (key, val) ∈ g_value_map g →
  getitem (values g) key = Ok col →
  col !! r1 = Some (Str x) →
  col !! r2 = Some (Str y) →
  ∃ col',
    (remap g).1 = Ok ()
    ∧ getitem (values (remap g).2) key = Ok col'
    ∧ (col' !! r1 = col' !! r2 → x = y).
Proof.
  intros Hkeys Hall Hin Hcol Hr1 Hr2.
  rewrite (remap_completes g Hall). cbn [fst snd values set_values].
  exists (encoder (g_value_map g) key <$> col).
  split; [done|]. split; [by apply getitem_encode_frame|].
  rewrite !list_lookup_fmap, Hr1, Hr2. simpl.
  rewrite !(encoder_single _ key val) by done.
  intros [= Heq]. by apply (replace_cell_Str_inj val).
Qed.

Lemma encoder_injective_on_strings_witness :
  ∃ col',
    (remap (Globals value_map unknown_values sample_labels)).1 = Ok ()
    ∧ getitem
        (values (remap (Globals value_map unknown_values sample_labels)).2)
        "land_surface_condition" = Ok col'
    ∧ (col' !! 0 = col' !! 1 → "t" = "z").
Proof.
  apply (encoder_injective_on_strings
           (Globals value_map unknown_values sample_labels)
           "land_surface_condition" ["n"; "o"; "t"] [Str "t"; Str "z"]
           0 1 "t" "z").
  - compute_done.
  - compute_done.
  - compute_done.
  - vm_compute. reflexivity.
  - reflexivity.
  - reflexivity.
Defined.

(** X3. When a key of the map labels no column, the loop stops there with
    [KeyError] for that key, the first such key in the order of the items;
    the columns of the items before it have already been replaced in place
    and stay so, and nothing else of the frame has changed. *)
Theorem remap_stops_at_first_missing_key
  (g : globals) (pre post : list (string * list string))
  (key : string) (val : list string) :
  g_value_map g = (pre ++ (key, val) :: post)%list →
  Forall (λ item, item.1 ∈ columns (values g)) pre →
  key ∉ columns (values g) →
  (remap g).1 = Raise (KeyError key)
  ∧ (∀ (j : nat) (k : string) (col : Series),
       values g !! j = Some (k, col) →
       k ∈ pre.*1 →
       values (remap g).2 !! j = Some (k, encoder pre k <$> col))
  ∧ (∀ (j : nat) (k : string) (col : Series),
       values g !! j = Some (k, col) →
       k ∉ pre.*1 →
       values (remap g).2 !! j = Some (k, col)).
Proof.
  intros Hvm Hpre Hkey. rewrite remap_run, Hvm.
  rewrite (first_missing_stop pre key val post) by done.
  rewrite (processed_stop pre key val post) by done.
  cbn [fst snd values set_values]. split; [done|]. split.
  - intros j k col Hj _. by apply encode_frame_lookup.
  - intros j k col Hj Hk.
    rewrite (encode_frame_lookup _ _ j k col) by done. do 2 f_equal.
    rewrite <- (list_fmap_id col) at 2.
    apply list_fmap_ext. intros _ c _. by apply encoder_other.
Qed.

Lemma remap_stops_at_first_missing_key_witness :
  let g := Globals value_map no_roof_values sample_labels in
  (remap g).1 = Raise (KeyError "roof_type")
  ∧ values (remap g).2 !! 2
    = Some ("land_surface_condition", [Num 2; Num 1])
  ∧ values (remap g).2 !! 4
    = Some ("ground_floor_type", [Str "f"; Str "x"]).
Proof.
  intros g.
  destruct (remap_stops_at_first_missing_key g
              (take 2 value_map) (skipn 3 value_map)
              "roof_type" ["n"; "q"; "x"])
    as (Herr & Hdone & Hleft).
  - reflexivity.
  - compute_done.
  - compute_done.
  - split; [exact Herr|]. split.
    + apply (Hdone 2 "land_surface_condition" [Str "t"; Str "o"]).
      * reflexivity.
      * compute_done.
    + apply (Hleft 4 "ground_floor_type" [Str "f"; Str "x"]).
      * reflexivity.
      * compute_done.
Defined.

(** X4. On a frame that has every configured column, the order of the items
    of the map does not matter: with distinct keys, the loop run over any
    rearrangement of the items completes and leaves the same frame. *)
Theorem remap_order_irrelevant
  (g : globals) (items' : list (string * list string)) :
  NoDup (g_value_map g).*1 →
  g_value_map g ≡ₚ items' →
  Forall (λ item, item.1 ∈ columns (values g)) (g_value_map g) →
  (remap g).1 = Ok ()
  ∧ (remap (Globals items' (values g) (labels g))).1 = Ok ()
  ∧ values (remap (Globals items' (values g) (labels g))).2
    = values (remap g).2.
Proof.
  intros Hkeys Hperm Hall.
  assert (Forall (λ item, item.1 ∈ columns (values g)) items') as Hall'
    by (by rewrite <- Hperm).
  rewrite (remap_completes g Hall).
  rewrite (remap_completes (Globals items' (values g) (labels g))) by done.
  cbn [fst snd values set_values g_value_map]. do 2 (split; [done|]).
  unfold encode_frame. apply list_fmap_ext. intros _ [k col] _. simpl.
  f_equal. apply list_fmap_ext. intros _ c _.
  symmetry. by apply encoder_Permutation.
Qed.

Lemma remap_order_irrelevant_witness :
  values (remap (Globals (reverse value_map) sample_values sample_labels)).2
  = values (remap (Globals value_map sample_values sample_labels)).2.
Proof.
  apply (remap_order_irrelevant
           (Globals value_map sample_values sample_labels)
           (reverse value_map)).
  - compute_done.
  - apply Permutation_sym, reverse_Permutation.
  - compute_done.
Defined.

(** X5. After a completed run a cell of a configured column is a number
    exactly when it was a number already or held a string of the column's
    vocabulary; and a number that replaced a string is a position of the
    vocabulary, at least 0 and less than its length. *)
Theorem encoded_cell_numeric_iff_known
  (g : globals) (key : string) (val : list string) (col : Series)
  (r : nat) (c : cell) :
  NoDup (g_value_map g).*1 →
  Forall (λ item, item.1 ∈ columns (values g)) (g_value_map g) →
  (key, val) ∈ g_value_map g →
  getitem (values g) key = Ok col →
  col !! r = Some c →
  ∃ col' c',
    (remap g).1 = Ok ()
    ∧ getitem (values (remap g).2) key = Ok col'
    ∧ col' !! r = Some c'
    ∧ ((∃ z, c' = Num z) ↔ (∃ z, c = Num z) ∨ (∃ x, c = Str x ∧ x ∈ val))
    ∧ (∀ x z, c = Str x → c' = Num z → (0 ≤ z < Z.of_nat (length val))%Z).
Proof.
  intros Hkeys Hall Hin Hcol Hr.
  rewrite (remap_completes g Hall). cbn [fst snd values set_values].
  exists (encoder (g_value_map g) key <$> col),
         (replace_cell (val_dict val) c).
  split; [done|]. split; [by apply getitem_encode_frame|].
  split.
  { rewrite list_lookup_fmap, Hr. simpl.
    by rewrite (encoder_single _ key val). }
  destruct c as [x|z]; simpl.
  - destruct (val_dict val !! x) as [z|] eqn:Hx.
    + pose proof (val_dict_sound _ _ _ Hx) as (i & Hi & ->).
      split.
      * split; [|by eexists]. intros _. right. exists x.
        split; [done|]. by eapply list_elem_of_lookup_2.
      * intros ? ? [= <-] [= <-]. apply lookup_lt_Some in Hi. lia.
    + split; [|done]. split; [by intros [? ?]|].
      intros [[? ?]|(x' & [= <-] & Hx')]; [done|].
      apply val_dict_known in Hx' as [? ?]. congruence.
  - split; [|done]. split; [|by eexists]. intros _. left. by eexists.
Qed.

Lemma encoded_cell_numeric_iff_known_witness :
  ∃ col' c',
    (remap (Globals value_map unknown_values sample_labels)).1 = Ok ()
    ∧ getitem
        (values (remap (Globals value_map unknown_values sample_labels)).2)
        "land_surface_condition" = Ok col'
    ∧ col' !! 0 = Some c'
    ∧ ((∃ z, c' = Num z)
       ↔ (∃ z, Str "t" = Num z)
         ∨ (∃ x, Str "t" = Str x ∧ x ∈ ["n"; "o"; "t"]))
    ∧ (∀ x z, Str "t" = Str x → c' = Num z →
              (0 ≤ z < Z.of_nat (length ["n"; "o"; "t"]))%Z).
Proof.
  apply (encoded_cell_numeric_iff_known
           (Globals value_map unknown_values sample_labels)
           "land_surface_condition" ["n"; "o"; "t"] [Str "t"; Str "z"]
           0 (Str "t")).
  - compute_done.
  - compute_done.
  - compute_done.
  - vm_compute. reflexivity.
  - reflexivity.
Defined.

(** ** The preparation cell, continued *)

Section CellFacts.
Implicit Types (df : DataFrame) (k label : string) (col : Series).

Lemma columns_filter label df :
  columns (filter (λ c, c.1 ≠ label) df)
  = filter (λ k, k ≠ label) (columns df).
Proof.
  unfold columns. induction df as [|[k col] df IH]; [done|].
  rewrite fmap_cons, !filter_cons. simpl.
  case_decide; [by rewrite fmap_cons, IH|done].
Qed.

Lemma getitem_filter label df k :
  k ≠ label → getitem (filter (λ c, c.1 ≠ label) df) k = getitem df k.
Proof.
  intros Hk. induction df as [|[k' col] df IH]; [done|].
  destruct (decide (k' = label)) as [->|Hne].
  - rewrite filter_cons_False by (simpl; by intros []).
    simpl. rewrite decide_False by done. exact IH.
  - rewrite filter_cons_True by done. simpl. by rewrite IH.
Qed.

Lemma getitem_read_csv df n k col :
  getitem df k = Ok col → getitem (read_csv df n) k = Ok (take n col).
Proof.
  induction df as [|[k' c] df IH]; simpl; [done|].
  case_decide; [by intros [= ->]|done].
Qed.
End CellFacts.

(** X6. When the preparation cell completes, the columns of [values] are the
    columns of the feature file without [building_id], in the order of the
    file (the order of the feature names), and [labels] is the label file,
    cut to [N] rows and without [building_id], with no cell changed: the
    remapping never touches the labels. *)
Theorem prepare_keeps_column_order
  (vm : list (string * list string)) (file_values file_labels : DataFrame) :
  (prepare vm file_values file_labels).1 = Ok () →
  columns (values (prepare vm file_values file_labels).2)
  = filter (λ k, k ≠ "building_id") (columns file_values)
  ∧ labels (prepare vm file_values file_labels).2
    = filter (λ c, c.1 ≠ "building_id") (read_csv file_labels N).
Proof.
  rewrite prepare_run.
  destruct (decide ("building_id" ∈ columns file_values)); [|done].
  destruct (decide ("building_id" ∈ columns file_labels)); [|done].
  intros _.
  match goal with |- context [remap ?g0] =>
    destruct (remap_fields g0) as (_ & -> & ->) end.
  cbn [values labels]. split; [|done].
  by rewrite columns_filter, columns_read_csv.
Qed.

Lemma prepare_keeps_column_order_witness :
  columns (values (prepare value_map sample_values sample_labels).2)
  = filter (λ k, k ≠ "building_id") (columns sample_values)
  ∧ labels (prepare value_map sample_values sample_labels).2
    = filter (λ c, c.1 ≠ "building_id") (read_csv sample_labels N).
Proof.
  apply (prepare_keeps_column_order value_map sample_values sample_labels).
  vm_compute. reflexivity.
Defined.

(** X7. When the preparation cell completes, every column of the feature
    file other than [building_id] is a column of [values] with the number of
    rows of the file, or [N] if the file has more: rows after the first [N]
    are not read and the remapping neither adds nor removes a row.  A
    column that the map does not configure is the first [N] cells of the
    file's column, unchanged. *)
Theorem prepare_bounds_rows
  (vm : list (string * list string)) (file_values file_labels : DataFrame)
  (k : string) (col : Series) :
  (prepare vm file_values file_labels).1 = Ok () →
  k ≠ "building_id" →
  getitem file_values k = Ok col →
  ∃ col',
    getitem (values (prepare vm file_values file_labels).2) k = Ok col'
    ∧ length col' = length col `min` N
    ∧ length col' ≤ N
    ∧ (k ∉ vm.*1 → col' = take N col).
Proof.
  rewrite prepare_run.
  destruct (decide ("building_id" ∈ columns file_values)); [|done].
  destruct (decide ("building_id" ∈ columns file_labels)); [|done].
  intros Hrun Hk Hcol.
  apply remap_Ok_iff in Hrun. rewrite (remap_completes _ Hrun).
  cbn [snd values set_values g_value_map].
  exists (encoder vm k <$> take N col).
  split.
  { apply getitem_encode_frame. rewrite getitem_filter by done.
    by apply getitem_read_csv. }
  rewrite length_fmap, length_take.
  split; [lia|]. split; [lia|].
  intros Hout. rewrite <- (list_fmap_id (take N col)) at 2.
  apply list_fmap_ext. intros _ c _. by apply encoder_other.
Qed.

Lemma prepare_bounds_rows_witness :
  ∃ col',
    getitem (values (prepare value_map sample_values sample_labels).2)
      "count_floors_pre_eq" = Ok col'
    ∧ length col' = 2 `min` N
    ∧ length col' ≤ N
    ∧ ("count_floors_pre_eq" ∉ value_map.*1 → col' = take N [Num 2; Num 2]).
Proof.
  apply (prepare_bounds_rows value_map sample_values sample_labels
           "count_floors_pre_eq" [Num 2; Num 2]%Z).
  - vm_compute. reflexivity.
  - compute_done.
  - vm_compute. reflexivity.
Defined.

(** X8. When [building_id] is missing the cell stops with a [KeyError]
    and leaves the tables as far as it got: if the feature file lacks it,
    both tables are as read; if only the label file lacks it, [values] has
    already lost its identifier column while [labels] is as read, and no
    categorical column has been remapped. *)
Theorem prepare_missing_identifier
  (vm : list (string * list string)) (file_values file_labels : DataFrame) :
  ("building_id" ∉ columns file_values →
   ∃ payload,
     prepare vm file_values file_labels
     = (Raise (KeyError payload),
        Globals vm (read_csv file_values N) (read_csv file_labels N)))
  ∧ ("building_id" ∈ columns file_values →
     "building_id" ∉ columns file_labels →
     ∃ payload,
       prepare vm file_values file_labels
       = (Raise (KeyError payload),
          Globals vm
            (filter (λ c, c.1 ≠ "building_id") (read_csv file_values N))
            (read_csv file_labels N))).
Proof.
  rewrite prepare_run. split.
  - intros Hv. rewrite decide_False by done. by eexists.
  - intros Hv Hl. rewrite decide_True, decide_False by done. by eexists.
Qed.

Lemma prepare_missing_identifier_witness :
  (∃ payload,
      prepare value_map sample_values (skipn 1 sample_labels)
      = (Raise (KeyError payload),
         Globals value_map
           (filter (λ c, c.1 ≠ "building_id") (read_csv sample_values N))
           (read_csv (skipn 1 sample_labels) N)))
  ∧ (∃ payload,
        prepare value_map (skipn 1 sample_values) sample_labels
        = (Raise (KeyError payload),
           Globals value_map (read_csv (skipn 1 sample_values) N)
             (read_csv sample_labels N))).
Proof.
  split.
  - apply (proj2 (prepare_missing_identifier
                    value_map sample_values (skipn 1 sample_labels))).
    + compute_done.
    + compute_done.
  - apply (proj1 (prepare_missing_identifier
                    value_map (skipn 1 sample_values) sample_labels)).
    compute_done.
Defined.

(** ** Flattening the labels *)

Section Ravel.
Lemma rows_single_from (k : string) (pre col : Series) :
  concat ((λ i, omap (λ c : string * list cell, c.2 !! i) [(k, pre ++ col)])
            <$> seq (length pre) (length col)) = col.
Proof.
  revert pre. induction col as [|c col IH]; intros pre; [done|].
  cbn [length seq fmap list_fmap concat omap list_omap snd].
  rewrite list_lookup_middle by done. simpl. f_equal.
  specialize (IH (pre ++ [c])).
  rewrite <- app_assoc, length_app in IH. simpl in IH.
  by rewrite Nat.add_1_r in IH.
Qed.
End Ravel.

(** X9. [np.ravel] of a table with a single column, such as the labels
    after [building_id] is dropped, is that column: the same cells in the
    same order, one per row ("from (N, 1) to just (N)"). *)
Theorem ravel_single_column (k : string) (col : Series) :
  ravel [(k, col)] = col ∧ length (ravel [(k, col)]) = nrows [(k, col)].
Proof.
  assert (ravel [(k, col)] = col) as H
    by apply (rows_single_from k [] col).
  by rewrite H.
Qed.

(** ** Selecting signals by label *)

Section Masks.
Context {A : Type}.
Implicit Types (a : list A) (mask : list bool) (labels : list Z).

Lemma compress_fmap {B} (f : A → B) mask a :
  compress mask (f <$> a) = f <$> compress mask a.
Proof.
  revert a. induction mask as [|b mask IH]; intros [|x a]; try done.
  simpl. destruct b; simpl; by rewrite IH.
Qed.

Lemma compress_sublist mask a : compress mask a `sublist_of` a.
Proof.
  revert a. induction mask as [|b mask IH]; intros [|x a]; simpl;
    try apply sublist_nil_l.
  destruct b; [by apply sublist_skip|by apply sublist_cons].
Qed.

Lemma compress_partition mask a :
  length mask = length a →
  compress mask a ++ compress (invert mask) a ≡ₚ a.
Proof.
  revert a. induction mask as [|b mask IH]; intros [|x a] Hlen; try done.
  simpl in *. assert (length mask = length a) as Hlen' by lia.
  destruct b; simpl.
  - f_equiv. by apply IH.
  - rewrite <- Permutation_middle. f_equiv. by apply IH.
Qed.

Lemma Forall_compress (P : A → Prop) mask a :
  Forall P a → Forall P (compress mask a).
Proof.
  intros Ha. revert mask. induction Ha as [|x a Hx _ IH]; intros [|b mask];
    simpl; try done.
  destruct b; [constructor|]; auto.
Qed.

Lemma boolean_index_Ok_inv mask a sel :
  boolean_index a mask = Ok sel →
  sel = compress mask a ∧ (length mask = length a ∨ sel = []).
Proof.
  unfold boolean_index. case_decide; [intros [= <-]; by split; [|left]|].
  case_decide as Hnil; [|done]. intros [= <-].
  apply length_zero_iff_nil in Hnil as ->. by split; [|right].
Qed.

Lemma compress_lookup mask a (i : nat) (b : bool) (x : A) :
  mask !! i = Some b → a !! i = Some x →
  if b return Prop then x ∈ compress mask a
  else x ∈ compress (invert mask) a.
Proof.
  revert a i. induction mask as [|b' mask IH]; intros [|y a] [|i]; try done.
  - simpl. intros [= ->] [= ->]. destruct b; simpl; by left.
  - simpl. intros Hb Hx. specialize (IH a i Hb Hx).
    destruct b, b'; simpl; try done; by right.
Qed.
End Masks.

(** X10. Indexing an array by the mask [train_labels == 1] and by its
    negation splits the array in two: with as many labels as entries both
    selections succeed, each keeps the order of the array, together they
    hold every entry exactly as often as the array does, and an entry goes
    to the first selection when its label is 1 and to the second otherwise.
    With a different number of labels both raise [IndexError], unless there
    is no label at all: an empty mask selects nothing, twice, on any
    array. *)
Theorem boolean_index_splits {A} (a : list A) (labels : list Z) :
  (length labels = length a →
   ∃ ev no,
     boolean_index a (equals_scalar labels 1) = Ok ev
     ∧ boolean_index a (invert (equals_scalar labels 1)) = Ok no
     ∧ ev ++ no ≡ₚ a
     ∧ ev `sublist_of` a ∧ no `sublist_of` a
     ∧ (∀ i x l, a !! i = Some x → labels !! i = Some l →
          (l = 1%Z → x ∈ ev) ∧ (l ≠ 1%Z → x ∈ no)))
  ∧ (length labels ≠ length a → labels ≠ [] →
     boolean_index a (equals_scalar labels 1) = Raise IndexError
     ∧ boolean_index a (invert (equals_scalar labels 1)) = Raise IndexError)
  ∧ (labels = [] →
     boolean_index a (equals_scalar labels 1) = Ok []
     ∧ boolean_index a (invert (equals_scalar labels 1)) = Ok []).
Proof.
  unfold boolean_index, invert, equals_scalar. rewrite !length_fmap.
  split; [|split].
  - intros Hlen. rewrite !decide_True by done.
    eexists _, _. do 2 (split; [reflexivity|]).
    split; [apply compress_partition; by rewrite length_fmap|].
    do 2 (split; [apply compress_sublist|]).
    intros i x l Hx Hl.
    pose proof (compress_lookup ((λ x, bool_decide (x = 1%Z)) <$> labels)
                  a i (bool_decide (l = 1%Z)) x) as H.
    rewrite list_lookup_fmap, Hl in H. specialize (H eq_refl Hx).
    split; intros Hl1.
    + by rewrite bool_decide_eq_true_2 in H.
    + by rewrite bool_decide_eq_false_2 in H.
  - intros Hlen Hnil. rewrite !decide_False; [done|..]; try done.
    all: by intros ?%length_zero_iff_nil.
  - intros ->. simpl. by destruct a.
Qed.

Lemma boolean_index_splits_witness :
  (∃ ev no,
      boolean_index ["a"; "b"; "c"] (equals_scalar [1; 0; 1]%Z 1) = Ok ev
      ∧ boolean_index ["a"; "b"; "c"] (invert (equals_scalar [1; 0; 1]%Z 1))
        = Ok no
      ∧ ev ++ no ≡ₚ ["a"; "b"; "c"]
      ∧ ev `sublist_of` ["a"; "b"; "c"] ∧ no `sublist_of` ["a"; "b"; "c"]
      ∧ (∀ i x l, ["a"; "b"; "c"] !! i = Some x →
           [1; 0; 1]%Z !! i = Some l →
           (l = 1%Z → x ∈ ev) ∧ (l ≠ 1%Z → x ∈ no)))
  ∧ boolean_index ["a"; "b"; "c"] (equals_scalar [1; 0]%Z 1)
    = Raise IndexError
  ∧ boolean_index ["a"; "b"; "c"] (equals_scalar [] 1) = Ok [].
Proof.
  split; [|split].
  - apply (proj1 (boolean_index_splits ["a"; "b"; "c"] [1; 0; 1]%Z)).
    reflexivity.
  - apply (proj1 (proj2 (boolean_index_splits ["a"; "b"; "c"] [1; 0]%Z))
             ltac:(simpl; lia) ltac:(discriminate)).
  - apply (proj2 (proj2 (boolean_index_splits ["a"; "b"; "c"] [])) eq_refl).
Defined.

(** ** Example signals: expand, select, cut and reshape *)

Section Reshape.
Context {A : Type}.
Implicit Types (rows : list (list A)) (flat : list A).

Lemma concat_singletons (row : list A) : concat ((λ x, [x]) <$> row) = row.
Proof.
  induction row as [|x row IH]; [done|].
  by rewrite fmap_cons, concat_cons, IH.
Qed.

(** Flattening the expanded array gives the entries of the rows in order. *)
Lemma flatten_expand_dims_2 rows :
  concat (concat (expand_dims_2 rows)) = concat rows.
Proof.
  unfold expand_dims_2. induction rows as [|row rows IH]; [done|].
  rewrite fmap_cons, !concat_cons, concat_app, IH.
  by rewrite concat_singletons.
Qed.

Lemma chunks_concat rows m :
  Forall (λ row, length row = m) rows →
  chunks (length rows) m (concat rows) = rows.
Proof.
  induction 1 as [|row rows Hrow _ IH]; [done|]. simpl.
  by rewrite take_app_length', drop_app_length', IH.
Qed.

Lemma length_concat_uniform rows m :
  Forall (λ row, length row = m) rows →
  length (concat rows) = length rows * m.
Proof.
  induction 1 as [|row rows Hrow _ IH]; [done|]. simpl.
  rewrite length_app. lia.
Qed.

Lemma not_multiple_of_five (k m : nat) :
  1 ≤ k ≤ 4 → m `mod` 5 ≠ 0 → (k * m) `mod` 5 ≠ 0.
Proof.
  intros Hk Hm Hkm.
  assert (∃ q r, m = 5 * q + r ∧ 1 ≤ r ≤ 4) as (q & r & -> & Hr).
  { exists (m `div` 5), (m `mod` 5).
    pose proof (Nat.div_mod_eq m 5).
    pose proof (Nat.mod_upper_bound m 5 ltac:(done)). lia. }
  assert (∃ q2, k * (5 * q + r) = 5 * q2) as [q2 Hq2].
  { exists ((k * (5 * q + r)) `div` 5).
    pose proof (Nat.div_mod_eq (k * (5 * q + r)) 5). lia. }
  destruct k as [|[|[|[|[|?]]]]]; lia.
Qed.

(** Five rows of one length come back from [reshape((5, -1))]. *)
Lemma reshape_rows_five rows m :
  length rows = 5 → Forall (λ row, length row = m) rows →
  reshape_rows 5 (concat rows) = Ok rows.
Proof.
  intros H5 Hm. unfold reshape_rows.
  rewrite (length_concat_uniform rows m Hm), H5.
  rewrite decide_True by (split; [done|]; by rewrite Nat.mul_comm, Nat.Div0.mod_mul).
  rewrite (Nat.mul_comm 5 m), Nat.div_mul by done.
  rewrite <- H5 at 1. by rewrite chunks_concat.
Qed.

(** Between one and four rows, of a length that is no multiple of 5, do not
    fit. *)
Lemma reshape_rows_too_few rows m :
  1 ≤ length rows ≤ 4 → m `mod` 5 ≠ 0 →
  Forall (λ row, length row = m) rows →
  reshape_rows 5 (concat rows) = Raise ValueError.
Proof.
  intros Hk Hm Hrows. unfold reshape_rows.
  rewrite (length_concat_uniform rows m Hrows).
  rewrite decide_False; [done|]. intros [_ Hmod].
  by apply (not_multiple_of_five (length rows) m).
Qed.

Lemma select_examples_run (signals : list (list A)) (train_labels : list Z) :
  length train_labels = length signals →
  select_examples signals train_labels =
  (event_signals ←
     reshape_rows 5
       (concat (take 5 (compress (equals_scalar train_labels 1) signals)));
   noise_signals ←
     reshape_rows 5
       (concat
          (take 5 (compress (invert (equals_scalar train_labels 1)) signals)));
   mret (event_signals, noise_signals)).
Proof.
  intros Hlen. unfold select_examples.
  assert (∀ mask, length mask = length signals →
            boolean_index (expand_dims_2 signals) mask
            = Ok (expand_dims_2 (compress mask signals))) as Hindex.
  { intros mask Hmask. unfold boolean_index, expand_dims_2.
    rewrite length_fmap, decide_True by done. by rewrite compress_fmap. }
  rewrite !Hindex
    by (unfold invert, equals_scalar; by rewrite ?length_fmap).
  cbn [mbind result_mbind].
  assert (∀ sel : list (list A),
            concat (concat (take 5 (expand_dims_2 sel)))
            = concat (take 5 sel)) as Hflat.
  { intros sel. unfold expand_dims_2. rewrite <- fmap_take.
    apply flatten_expand_dims_2. }
  by rewrite !Hflat.
Qed.
End Reshape.

(** X11. With as many labels as signals, at least five signals labelled 1
    and at least five labelled otherwise, all signals of one length, the
    selection succeeds, and the example events are the first five signals
    labelled 1 and the example noise the first five of the others, each as
    it was loaded: expanding by an axis and reshaping to five rows undo each
    other. *)
Theorem select_examples_first_five {A} (signals : list (list A))
  (train_labels : list Z) (m : nat) (ev no : list (list A)) :
  Forall (λ s, length s = m) signals →
  boolean_index signals (equals_scalar train_labels 1) = Ok ev →
  boolean_index signals (invert (equals_scalar train_labels 1)) = Ok no →
  5 ≤ length ev → 5 ≤ length no →
  select_examples signals train_labels = Ok (take 5 ev, take 5 no).
Proof.
  intros Hm Hev Hno Hev5 Hno5.
  apply boolean_index_Ok_inv in Hev as [Hev [Hlen|Hnil]];
    [|rewrite Hnil in Hev5; simpl in Hev5; lia].
  apply boolean_index_Ok_inv in Hno as [Hno _].
  unfold equals_scalar in Hlen at 1. rewrite length_fmap in Hlen.
  rewrite select_examples_run by done. rewrite <- Hev, <- Hno.
  assert (∀ sel : list (list A),
            Forall (λ s, length s = m) sel → 5 ≤ length sel →
            reshape_rows 5 (concat (take 5 sel)) = Ok (take 5 sel)) as Hfit.
  { intros sel Hsel H5. apply (reshape_rows_five _ m).
    - rewrite length_take. lia.
    - by apply Forall_take. }
  rewrite (Hfit ev), (Hfit no); [done|..]; try done.
  - rewrite Hno. by apply Forall_compress.
  - rewrite Hev. by apply Forall_compress.
Qed.

Lemma select_examples_first_five_witness :
  select_examples
    [[1; 2]; [3; 4]; [5; 6]; [7; 8]; [9; 10];
     [11; 12]; [13; 14]; [15; 16]; [17; 18]; [19; 20]]
    [1; 0; 1; 0; 1; 0; 1; 0; 1; 0]%Z
  = Ok (take 5 [[1; 2]; [5; 6]; [9; 10]; [13; 14]; [17; 18]],
        take 5 [[3; 4]; [7; 8]; [11; 12]; [15; 16]; [19; 20]]).
Proof.
  apply (select_examples_first_five _ _ 2).
  - compute_done.
  - reflexivity.
  - reflexivity.
  - simpl. lia.
  - simpl. lia.
Defined.

(** X12. With between one and four signals labelled 1, all signals of one
    length that is no multiple of 5 (as 1024 is not), the selection stops at
    [reshape((5, -1))] with [ValueError]: fewer than five rows cannot be
    laid out as five. *)
Theorem select_examples_too_few_events {A} (signals : list (list A))
  (train_labels : list Z) (m : nat) (ev : list (list A)) :
  Forall (λ s, length s = m) signals →
  m `mod` 5 ≠ 0 →
  boolean_index signals (equals_scalar train_labels 1) = Ok ev →
  1 ≤ length ev ≤ 4 →
  select_examples signals train_labels = Raise ValueError.
Proof.
  intros Hm Hmod Hev Hk.
  apply boolean_index_Ok_inv in Hev as [Hev [Hlen|Hnil]];
    [|rewrite Hnil in Hk; simpl in Hk; lia].
  unfold equals_scalar in Hlen at 1. rewrite length_fmap in Hlen.
  rewrite select_examples_run by done. rewrite <- Hev.
  rewrite (reshape_rows_too_few (take 5 ev) m); [reflexivity| |done|].
  - rewrite length_take. lia.
  - apply Forall_take. rewrite Hev. by apply Forall_compress.
Qed.

Lemma select_examples_too_few_events_witness :
  1024 `mod` 5 ≠ 0
  ∧ select_examples [[1; 2]; [3; 4]; [5; 6]] [1; 0; 1]%Z = Raise ValueError.
Proof.
  split; [compute_done|].
  apply (select_examples_too_few_events _ _ 2 [[1; 2]; [5; 6]]).
  - compute_done.
  - compute_done.
  - reflexivity.
  - simpl. lia.
Defined.

(** ** The figure of predictions *)

Section Loops.
Context {St : Type}.
Implicit Types (body : nat → St → result numpy_error St) (ns : list nat).

Lemma result_bind_ret {E B} (r : result E B) : (r ≫= λ x, Ok x) = r.
Proof. by destruct r. Qed.

Lemma for_in_app ns1 ns2 body s :
  for_in (ns1 ++ ns2) body s = (s' ← for_in ns1 body s; for_in ns2 body s').
Proof.
  revert s. induction ns1 as [|n ns1 IH]; intros s; [done|].
  simpl. destruct (body n s) as [s'|e]; simpl; [apply IH|done].
Qed.

Lemma for_in_ext ns body body' s :
  (∀ n s', body n s' = body' n s') → for_in ns body s = for_in ns body' s.
Proof.
  intros Hext. revert s. induction ns as [|n ns IH]; intros s; [done|].
  simpl. rewrite Hext. destruct (body' n s) as [s'|e]; simpl; [apply IH|done].
Qed.

Lemma for_in_fmap (f : nat → nat) ns body s :
  for_in (f <$> ns) body s = for_in ns (λ n, body (f n)) s.
Proof.
  revert s. induction ns as [|n ns IH]; intros s; [done|].
  simpl. destruct (body (f n) s) as [s'|e]; simpl; [apply IH|done].
Qed.

(** [for i in range(r): for j in range(c): n = c*i + j; ...] visits
    [n = 0, 1, ..., r*c - 1] in this order. *)
Lemma for_range_nested (r c : nat) body s :
  for_range r (λ i, for_range c (λ j, body (c * i + j))) s
  = for_in (seq 0 (r * c)) body s.
Proof.
  unfold for_range. revert s. induction r as [|r IH]; intros s; [done|].
  rewrite seq_S, for_in_app, IH.
  replace (S r * c) with (r * c + c) by lia.
  rewrite seq_app, for_in_app.
  destruct (for_in (seq 0 (r * c)) body s) as [s'|e]; [|done].
  cbn [mbind result_mbind for_in].
  rewrite result_bind_ret, (Nat.add_comm 0 (r * c)).
  rewrite <- (fmap_add_seq (r * c) 0 c), for_in_fmap.
  apply for_in_ext. intros n s''. f_equal. lia.
Qed.
End Loops.

Section Panels.
Context {A B : Type}.
Implicit Types (f : nat → result numpy_error B) (ns : list nat).

Lemma for_in_collect f ns (fig : list B) :
  for_in ns (λ n fig', drawn ← f n; mret (fig' ++ [drawn])) fig
  = (drawn ← collect f ns; mret (fig ++ drawn)).
Proof.
  revert fig. induction ns as [|n ns IH]; intros fig; simpl.
  - by rewrite app_nil_r.
  - destruct (f n) as [y|e]; simpl; [|done]. rewrite IH.
    destruct (collect f ns) as [ys|e]; simpl; [|done].
    by rewrite <- app_assoc.
Qed.

Lemma collect_Ok f ns :
  Forall (λ n, ∃ y, f n = Ok y) ns →
  ∃ ys, collect f ns = Ok ys ∧ Forall2 (λ n y, f n = Ok y) ns ys.
Proof.
  induction 1 as [|n ns [y Hy] _ (ys & Hys & Hall)]; simpl.
  - by exists [].
  - exists (y :: ys). rewrite Hy, Hys. split; [done|]. by constructor.
Qed.

Lemma collect_Raise f ns n :
  (∀ n' e, f n' = Raise e → e = IndexError) →
  n ∈ ns → f n = Raise IndexError → collect f ns = Raise IndexError.
Proof.
  intros Herr. induction ns as [|n' ns IH]; intros Hn Hf.
  - by apply elem_of_nil in Hn.
  - simpl. destruct (f n') as [y|e] eqn:Hn'; simpl.
    + apply elem_of_cons in Hn as [->|Hn]; [congruence|].
      by rewrite IH.
    + by rewrite (Herr n' e Hn').
Qed.

Lemma item_Ok (a : list A) n x : a !! n = Some x → item a n = Ok x.
Proof. intros H. unfold item. by rewrite H. Qed.

Lemma item_Raise (a : list A) n : length a ≤ n → item a n = Raise IndexError.
Proof. intros H. unfold item. by rewrite lookup_ge_None_2. Qed.

Lemma item_error (a : list A) n e : item a n = Raise e → e = IndexError.
Proof. unfold item. destruct (a !! n); [done|]. by intros [= <-]. Qed.
End Panels.

(** X13. The loop that plots 70 predictions draws the panels 1 to 70, one
    for each of the first 70 test signals in order: panel [1 + n] shows
    signal [n], green when its prediction is its label and red otherwise.
    It needs 70 predictions, labels and signals; with fewer of any the loop
    stops with [IndexError]. *)
Theorem plot_predictions_seventy {A} (predictions test_labels : list Z)
  (test_signals : list A) :
  (70 ≤ length predictions → 70 ≤ length test_labels →
   70 ≤ length test_signals →
   ∃ fig,
     plot_predictions predictions test_labels test_signals = Ok fig
     ∧ length fig = 70
     ∧ ∀ n, n < 70 →
         ∃ p l s,
           predictions !! n = Some p ∧ test_labels !! n = Some l
           ∧ test_signals !! n = Some s
           ∧ fig !! n
             = Some (1 + n, s, if decide (p = l) then "g" else "r"))
  ∧ (length predictions < 70 ∨ length test_labels < 70
     ∨ length test_signals < 70 →
     plot_predictions predictions test_labels test_signals
     = Raise IndexError).
Proof.
  unfold plot_predictions.
  rewrite (for_range_nested 10 7
             (λ n fig, drawn ← panel predictions test_labels test_signals n;
                       mret (fig ++ [drawn]))).
  rewrite for_in_collect. change (10 * 7) with 70.
  set (f := panel predictions test_labels test_signals).
  assert (∀ n p l s,
            predictions !! n = Some p → test_labels !! n = Some l →
            test_signals !! n = Some s →
            f n = Ok (1 + n, s, if decide (p = l) then "g" else "r")) as Hok.
  { intros n p l s Hp Hl Hs. unfold f, panel.
    by rewrite (item_Ok _ _ _ Hp), (item_Ok _ _ _ Hl), (item_Ok _ _ _ Hs). }
  assert (∀ n e, f n = Raise e → e = IndexError) as Herr.
  { intros n e. unfold f, panel.
    destruct (item predictions n) as [p|e1] eqn:Hp; simpl;
      [|intros [= <-]; by eapply item_error].
    destruct (item test_labels n) as [l|e2] eqn:Hl; simpl;
      [|intros [= <-]; by eapply item_error].
    destruct (item test_signals n) as [s|e3] eqn:Hs; simpl;
      [done|intros [= <-]; by eapply item_error]. }
  split.
  - intros Hp Hl Hs.
    assert (∀ n, n < 70 → ∃ p l s,
              predictions !! n = Some p ∧ test_labels !! n = Some l
              ∧ test_signals !! n = Some s) as Hall.
    { intros n Hn.
      destruct (lookup_lt_is_Some_2 predictions n) as [p ?]; [lia|].
      destruct (lookup_lt_is_Some_2 test_labels n) as [l ?]; [lia|].
      destruct (lookup_lt_is_Some_2 test_signals n) as [s ?]; [lia|].
      by exists p, l, s. }
    destruct (collect_Ok f (seq 0 70)) as (fig & Hfig & Hrel).
    { apply Forall_forall. intros n [_ Hn]%elem_of_seq.
      destruct (Hall n Hn) as (p & l & s & ? & ? & ?).
      eexists. by apply (Hok n p l s). }
    exists fig. rewrite Hfig. split; [done|].
    pose proof (Forall2_length _ _ _ Hrel) as Hlen. rewrite length_seq in Hlen.
    split; [done|]. intros n Hn.
    destruct (Hall n Hn) as (p & l & s & Hp' & Hl' & Hs').
    exists p, l, s. do 3 (split; [done|]).
    destruct (lookup_lt_is_Some_2 fig n) as [y Hy]; [lia|].
    pose proof (Forall2_lookup_lr _ _ _ n n y Hrel) as Hn'.
    rewrite lookup_seq in Hn'. specialize (Hn' ltac:(split; [done|lia]) Hy).
    rewrite (Hok n p l s) in Hn' by done. by injection Hn' as <-.
  - intros Hshort.
    set (k := (length predictions `min` length test_labels)
                `min` length test_signals).
    rewrite (collect_Raise f (seq 0 70) k Herr); [done|apply elem_of_seq; lia|].
    unfold f, panel.
    destruct (decide (length predictions ≤ k)) as [Hp|Hp];
      [by rewrite (item_Raise predictions k)|].
    destruct (lookup_lt_is_Some_2 predictions k) as [p Hp']; [lia|].
    rewrite (item_Ok _ _ _ Hp'). simpl.
    destruct (decide (length test_labels ≤ k)) as [Hl|Hl];
      [by rewrite (item_Raise test_labels k)|].
    destruct (lookup_lt_is_Some_2 test_labels k) as [l Hl']; [lia|].
    rewrite (item_Ok _ _ _ Hl'). simpl.
    rewrite (item_Raise test_signals k); [done|lia].
Qed.

Lemma plot_predictions_seventy_witness :
  plot_predictions (replicate 69 1%Z) (replicate 70 1%Z) (seq 0 70)
  = Raise IndexError
  ∧ ∃ fig,
      plot_predictions (replicate 70 1%Z) (replicate 70 1%Z) (seq 0 70)
      = Ok fig
      ∧ length fig = 70.
Proof.
  split.
  - apply (proj2 (plot_predictions_seventy
                    (replicate 69 1%Z) (replicate 70 1%Z) (seq 0 70))).
    left. vm_compute. lia.
  - destruct (proj1 (plot_predictions_seventy
                       (replicate 70 1%Z) (replicate 70 1%Z) (seq 0 70)))
      as (fig & Hfig & Hlen & _).
    + vm_compute. lia.
    + vm_compute. lia.
    + vm_compute. lia.
    + by exists fig.
Defined.

(** ** Image channels *)

Section Channels.
Context {A : Type}.

Lemma collect_singletons (row : list A) :
  collect (λ px : list A, item px 0) ((λ x, [x]) <$> row) = Ok row.
Proof.
  induction row as [|x row IH]; [done|].
  rewrite fmap_cons. cbn [collect]. by rewrite IH.
Qed.

Lemma collect_rows_of_singletons (plane : list (list A)) :
  collect (collect (λ px : list A, item px 0))
    ((λ row : list A, (λ x, [x]) <$> row) <$> plane) = Ok plane.
Proof.
  induction plane as [|row plane IH]; [done|].
  rewrite fmap_cons. cbn [collect]. by rewrite collect_singletons, IH.
Qed.
End Channels.

(** X14. Reading channel 0 of image [n] from the array that
    [np.expand_dims(images, 3)] made gives image [n] of the original array,
    pixel for pixel, and [IndexError] when there is no image [n]: the added
    axis changes nothing of what is shown. *)
Theorem channel_0_expand_dims_3 {A} (images : list (list (list A))) (n : nat) :
  channel_0 (expand_dims_3 images) n = item images n.
Proof.
  unfold channel_0, expand_dims_3, item. rewrite list_lookup_fmap.
  destruct (images !! n) as [image|]; simpl; [|done].
  apply collect_rows_of_singletons.
Qed.
